(** * mesosphere/performance: the supervisor's watcher and the api-server's configuration

    A shallow embedding of
      - [supervisor/watch/watcher.go]: [StartWatcher], [processUnits],
        [handleUnit], [ToBigQuerySchema], [processResult] and [upload];
      - [api/cmd/api-server/config.go]: [NewConfig].

    Go values are modelled as follows: [int], [uint32], [time.Duration] and
    [time.Time] are integers ([Z]; a duration and an instant are counted in
    nanoseconds), [float64] is the kernel's binary64 [float], a [string] is a
    [string], a slice is a [list], and an [error] is its message (a nil error is
    [None]).  Calls of [logrus] write to the process log only; they neither
    return a value nor change what the functions compute, and are left out. *)

From Stdlib Require Import ZArith String Ascii List PrimFloat DecimalString DecimalZ.
From stdpp Require Import base tactics list strings.

Open Scope Z_scope.

Definition Duration := Z.
Definition Time := Z.
Definition error := string.

(** What a Go function returning [(T, error)] returns: a value, or a non-nil
    error. *)
Inductive result (A : Type) : Type :=
| Ok (a : A)
| Err (e : error).
Arguments Ok {A} a.
Arguments Err {A} e.

(** [strconv.Itoa]: the decimal representation of an integer. *)
Definition Itoa (z : Z) : string := NilZero.string_of_int (Z.to_int z).

(** The conversion [int32(x)] of a [uint32]: the same 32 bits read as a signed
    number. *)
Definition int32_of_uint32 (x : Z) : Z :=
  let y := x mod 2 ^ 32 in if y <? 2 ^ 31 then y else y - 2 ^ 32.

(** ** The packages the watcher imports *)

Module proc.

(** Modelled from the spec: the declaration of [proc.CPUPidUsage] is not among
    the sources; the watcher reads its fields [User], [System] and [Total], and
    the spec gives [CPUUsage = {user: float, system: float, total: float}]. *)
Record CPUPidUsage := mkCPUPidUsage {
  User : float;
  System : float;
  Total : float
}.

End proc.

Module systemd.

(** Modelled from the spec: the declaration of [systemd.SystemdUnitProps] is not
    among the sources; the watcher reads its fields [Name] and [Pid] (a
    [uint32]), the spec's [MonitoredUnit = {name, processID}]. *)
Record SystemdUnitProps := mkSystemdUnitProps {
  Name : string;
  Pid : Z
}.

End systemd.

Module backend.

(** Modelled from the spec: the declaration of [backend.BigQuerySchema] is not
    among the sources; these are the fields the watcher writes, the spec's
    [Row = {name, timestamp, userCPU, systemCPU, totalCPU, hostname, instance}]. *)
Record BigQuerySchema := mkBigQuerySchema {
  Name : string;
  Timestamp : Time;
  UserCPU_Usage : float;
  SystemCPU_Usage : float;
  TotalCPU_Usage : float;
  Hostname : string;
  Instance : string
}.

(** The assignment [row.Hostname = hostname]. *)
Definition set_Hostname (row : BigQuerySchema) (hostname : string) : BigQuerySchema :=
  {| Name := Name row;
     Timestamp := Timestamp row;
     UserCPU_Usage := UserCPU_Usage row;
     SystemCPU_Usage := SystemCPU_Usage row;
     TotalCPU_Usage := TotalCPU_Usage row;
     Hostname := hostname;
     Instance := Instance row |}.

End backend.

Module config.

(** Modelled from the spec: the declaration of the supervisor's [config.Config]
    is not among the sources; these are the fields the watcher reads: the tick
    interval [Wait], the sampling window [CPUUsageInterval], the maximal row
    count [FlagBufferSize] and the maximal batch age [UploadInterval]. *)
Record Config := mkConfig {
  Wait : Duration;
  CPUUsageInterval : Duration;
  FlagBufferSize : Z;
  UploadInterval : Duration
}.

End config.

(** ** [watcher.go]: the conversion of a sample *)

Module watch.

(** [SystemdUnitStatus]: a unit's name, pid and the cpu utilization by it. *)
Record SystemdUnitStatus := mkSystemdUnitStatus {
  Name : string;
  Pid : Z;
  CPUUsage : proc.CPUPidUsage
}.

(** The method [ToBigQuerySchema] of a [SystemdUnitStatus]; [now] is what
    [time.Now()] returns.  [Hostname] is left at its zero value. *)
Definition ToBigQuerySchema (s : SystemdUnitStatus) (now : Time) : backend.BigQuerySchema :=
  {| backend.Name := Name s;
     backend.Timestamp := now;
     backend.UserCPU_Usage := proc.User (CPUUsage s);
     backend.SystemCPU_Usage := proc.User (CPUUsage s);
     backend.TotalCPU_Usage := proc.Total (CPUUsage s);
     backend.Hostname := "";
     backend.Instance := Itoa (Pid s) |}.

(** *** The world around the watcher

    Everything the watcher only calls: the clock, the host's name, the
    conversion [ToBigQueryRow] of package [backend] (not among the sources) and
    the state the sinks write to.  The clock is a part of the world: it moves
    when the environment does and while a sink's [Put] runs. *)
Class Runtime := {
  World : Type;
  (** [time.Now()] *)
  clock : World -> Time;
  (** [os.Hostname()] *)
  os_Hostname : World -> result string;
  (** [backend.BigQueryRow] and [(BigQuerySchema).ToBigQueryRow()] *)
  BigQueryRow : Type;
  ToBigQueryRow : backend.BigQuerySchema -> BigQueryRow
}.

Section Aggregator.
Context {RT : Runtime}.

(** The interface [backend.Backend]: a sink's identifier and its [Put], which
    stores the items or fails, changing the world either way.  What a sink
    sees of the context it is given is a part of the world. *)
Record Backend := mkBackend {
  ID : string;
  Put : list BigQueryRow -> World -> option error * World
}.

(** What the watcher does to the world, in the order it does it: a call of
    [upload] with a batch, and a call of a sink's [Put] with what it returned. *)
Inductive Event :=
| EvUpload (items : list BigQueryRow)
| EvPut (b : Backend) (items : list BigQueryRow) (r : option error).

(** The world, and the calls made so far (oldest first). *)
Record Sys := mkSys {
  world : World;
  trace : list Event
}.

(** A computation that reads and changes the world. *)
Definition M (A : Type) : Type := Sys -> A * Sys.

Definition ret {A} (a : A) : M A := fun s => (a, s).

Definition bind {A B} (c : M A) (k : A -> M B) : M B :=
  fun s => let (a, s') := c s in k a s'.

Notation "x <- c ;; k" := (bind c (fun x => k))
  (at level 100, c at next level, right associativity).

Definition emit (e : Event) : M unit :=
  fun s => (tt, {| world := world s; trace := trace s ++ [e] |}).

Definition Now : M Time := fun s => (clock (world s), s).

(** [time.Since(t)] *)
Definition Since (t : Time) : M Duration := fun s => (clock (world s) - t, s).

Definition Hostname : M (result string) := fun s => (os_Hostname (world s), s).

(** The call [b.Put(ctx, items)]. *)
Definition call_Put (b : Backend) (items : list BigQueryRow) : M (option error) :=
  fun s =>
    let (r, w') := Put b items (world s) in
    (r, {| world := w'; trace := trace s ++ [EvPut b items r] |}).

(** [fmt.Errorf("Error uploading to backend %s: %s", b.ID(), err)] *)
Definition upload_error (id : string) (err : error) : error :=
  ("Error uploading to backend " ++ id ++ ": " ++ err)%string.

(** The loop of [upload] over the backends. *)
Fixpoint upload_loop (items : list BigQueryRow) (backends : list Backend) : M (option error) :=
  match backends with
  | [] => ret None
  | b :: backends' =>
      err <- call_Put b items ;;
      match err with
      | Some err => ret (Some (upload_error (ID b) err))
      | None => upload_loop items backends'
      end
  end.

(** [upload(ctx, items, backends)] *)
Definition upload (items : list BigQueryRow) (backends : list Backend) : M (option error) :=
  _ <- emit (EvUpload items) ;;
  upload_loop items backends.

(** The local variables of [processResult]: the open batch [rows], the time
    [updateTime] it was opened at, and the host's name. *)
Record Aggregator := mkAggregator {
  rows : list BigQueryRow;
  updateTime : Time;
  hostname : string
}.

(** [processResult] before its loop. *)
Definition processResult_start : M Aggregator :=
  updateTime <- Now ;;
  h <- Hostname ;;
  ret {| rows := [];
         updateTime := updateTime;
         hostname := match h with Ok h => h | Err _ => "<undefined>" end |}.

(** The case the [select] of [processResult] takes: the context is done, an
    event was received, or a result was received ([None]: the nil pointer that
    a closed channel delivers). *)
Inductive Selected :=
| SelDone
| SelEvent (event : backend.BigQuerySchema)
| SelResult (result : option SystemdUnitStatus).

(** How one iteration of the loop ends: the loop goes on with new locals, the
    function returns, or it panics. *)
Inductive Outcome :=
| Continue (a : Aggregator)
| Return
| Panic.

(** The row made of a result: [result.ToBigQuerySchema()], with the host's
    name, converted by [ToBigQueryRow]. *)
Definition result_row (a : Aggregator) (result : SystemdUnitStatus) : M BigQueryRow :=
  now <- Now ;;
  ret (ToBigQueryRow (backend.set_Hostname (ToBigQuerySchema result now) (hostname a))).

(** [len(rows) >= cfg.FlagBufferSize || time.Since(updateTime) >= cfg.UploadInterval] *)
Definition flush_due (cfg : config.Config) (rows : list BigQueryRow) (updateTime : Time) : M bool :=
  if Z.of_nat (length rows) >=? config.FlagBufferSize cfg then ret true
  else since <- Since updateTime ;; ret (since >=? config.UploadInterval cfg).

(** One iteration of the loop of [processResult], given the case its [select]
    takes. *)
Definition processResult_case (cfg : config.Config) (backends : list Backend)
    (a : Aggregator) (sel : Selected) : M Outcome :=
  match sel with
  | SelDone => ret Return
  | SelEvent event =>
      _ <- upload [ToBigQueryRow event] backends ;;
      ret (Continue a)
  | SelResult None => ret Panic
  | SelResult (Some result) =>
      row <- result_row a result ;;
      let rows := rows a ++ [row] in
      due <- flush_due cfg rows (updateTime a) ;;
      if due then
        err <- upload rows backends ;;
        match err with
        | Some _ =>
            ret (Continue {| rows := rows; updateTime := updateTime a; hostname := hostname a |})
        | None =>
            updateTime <- Now ;;
            ret (Continue {| rows := []; updateTime := updateTime; hostname := hostname a |})
        end
      else
        ret (Continue {| rows := rows; updateTime := updateTime a; hostname := hostname a |})
  end.

(** What happens while [processResult] waits in its [select]: the environment
    changes the world (time passes), then a case is taken. *)
Record Input := mkInput {
  before : World -> World;
  selected : Selected
}.

Definition environment (f : World -> World) : M unit :=
  fun s => (tt, {| world := f (world s); trace := trace s |}).

(** The loop of [processResult] over the cases its [select] takes; at the end
    of the inputs the loop is still waiting, with the locals returned. *)
Fixpoint processResult_loop (cfg : config.Config) (backends : list Backend)
    (a : Aggregator) (inputs : list Input) : M Outcome :=
  match inputs with
  | [] => ret (Continue a)
  | i :: inputs' =>
      _ <- environment (before i) ;;
      out <- processResult_case cfg backends a (selected i) ;;
      match out with
      | Continue a' => processResult_loop cfg backends a' inputs'
      | Return => ret Return
      | Panic => ret Panic
      end
  end.

(** [processResult(ctx, cfg, results, backends, eventChan)] *)
Definition processResult (cfg : config.Config) (backends : list Backend)
    (inputs : list Input) : M Outcome :=
  a <- processResult_start ;;
  processResult_loop cfg backends a inputs.

(** The calls of [Put] made by one [upload]: each sink called, with what its
    [Put] returned, in the order of the calls. *)
Definition Call : Type := Backend * option error.

Definition put_events (items : list BigQueryRow) (calls : list Call) : list Event :=
  map (fun c : Call => EvPut (fst c) items (snd c)) calls.

(** [threaded items w calls w']: made one after the other from the world [w],
    the calls return what [calls] says and leave the world [w']. *)
Inductive threaded (items : list BigQueryRow) : World -> list Call -> World -> Prop :=
| threaded_nil w : threaded items w [] w
| threaded_cons w b r w1 calls w' :
    Put b items w = (r, w1) ->
    threaded items w1 calls w' ->
    threaded items w ((b, r) :: calls) w'.

(** The calls added to the trace between two states. *)
Definition new_events (s s' : Sys) : list Event := drop (length (trace s)) (trace s').

(** The batches handed to [upload] among some events. *)
Definition uploaded (evs : list Event) : list (list BigQueryRow) :=
  omap (fun e => match e with EvUpload items => Some items | EvPut _ _ _ => None end) evs.

(** Sinks whose [Put] never fails, whatever the items and the world. *)
Definition never_fail (backends : list Backend) : Prop :=
  Forall (fun b => forall items w, fst (Put b items w) = None) backends.

(** A row that reaches the aggregator: made of a result, or pushed as an
    event. *)
Inductive Arrival :=
| Sampled (row : BigQueryRow)
| Pushed (row : BigQueryRow).

Definition arrival_row (x : Arrival) : BigQueryRow :=
  match x with Sampled row | Pushed row => row end.

Definition sampled_row (x : Arrival) : option BigQueryRow :=
  match x with Sampled row => Some row | Pushed _ => None end.

(** The rows that reach the loop of [processResult] over the inputs, in the
    order of their arrival: for a result, the row the loop appends (made with
    the clock of that moment); for an event, its row. *)
Fixpoint arrivals (cfg : config.Config) (backends : list Backend)
    (a : Aggregator) (inputs : list Input) (s : Sys) : list Arrival :=
  match inputs with
  | [] => []
  | i :: inputs' =>
      let s1 := snd (environment (before i) s) in
      let r := processResult_case cfg backends a (selected i) s1 in
      match selected i with
      | SelEvent event => [Pushed (ToBigQueryRow event)]
      | SelResult (Some result) => [Sampled (fst (result_row a result s1))]
      | _ => []
      end ++
      match fst r with
      | Continue a' => arrivals cfg backends a' inputs' (snd r)
      | _ => []
      end
  end.

End Aggregator.

(** *** The goroutines of [StartWatcher]

    [StartWatcher] runs three kinds of goroutines: its own loop (the
    dispatcher), one [handleUnit] per unit of the current tick (the tasks) and
    [processResult] (the aggregator).  They share the context [ctx], the
    unbuffered channel [resultChan] and the wait group of the current tick.
    Their interleavings are the runs of a transition system; what the
    enumerator and the sampler return, the timer, the events and the
    cancellation are chosen by the environment.

    A [select] may take any of its cases that is ready, as in Go; a send on
    the unbuffered channel and its receive are one move; a receive from the
    closed channel delivers the nil pointer; closing the closed channel,
    sending on it and dereferencing nil panic, and a panic ends the process.
    The tasks of a tick are started together, and an iteration of the
    aggregator's loop is one move: in both cases the moves in between commute
    with those of the other goroutines.  A context that is never cancelled
    (as [context.Background()], which [StartWatcher] takes for a nil [ctx]) is
    a run without the move [LCancel]. *)
Section Watcher.
Context {RT : Runtime}.

(** Where the loop of [StartWatcher] stands. *)
Inductive Dispatcher :=
| DTop                      (* at the head of the loop, about to call processUnits *)
| DWait                     (* in processUnits, at wg.Wait() *)
| DSelect (fired : bool)    (* at the select; fired: time.After's channel is ready *)
| DReturned.                (* StartWatcher has returned *)

(** Where a [handleUnit] stands. *)
Inductive Task :=
| TLoad (unit : systemd.SystemdUnitProps)                              (* in proc.LoadByPID *)
| TSelect (unit : systemd.SystemdUnitProps) (usage : proc.CPUPidUsage) (* at its select *)
| TSend (status : SystemdUnitStatus)                                   (* blocked in resultChan <- status *)
| TDone.                                                               (* returned, wg.Done() has run *)

(** Where [processResult] stands. *)
Inductive Agg :=
| AStart                    (* started by the go statement, before its loop *)
| ALoop (a : Aggregator)    (* at its select *)
| AReturned.

(** An unrecovered panic ends the process. *)
Inductive PanicReason :=
| CloseOfClosedChannel
| SendOnClosedChannel
| NilDereference.

Record State := mkState {
  sys : Sys;
  cancelled : bool;               (* ctx.Done() is closed *)
  closed : bool;                  (* resultChan is closed *)
  crash : option PanicReason;
  disp : Dispatcher;
  tasks : list Task;              (* the handleUnit goroutines of the current tick *)
  agg : Agg
}.

(** [handleUnit] after [proc.LoadByPID] has returned [r]. *)
Definition handleUnit_loaded (unit : systemd.SystemdUnitProps) (r : result proc.CPUPidUsage) : Task :=
  match r with
  | Err _ => TDone
  | Ok usage => TSelect unit usage
  end.

(** The [select] of [handleUnit]: with the context done it returns, and by
    default it sends the unit's status. *)
Definition handleUnit_select (done : bool) (unit : systemd.SystemdUnitProps)
    (usage : proc.CPUPidUsage) : Task :=
  if done then TDone
  else TSend {| Name := systemd.Name unit; Pid := systemd.Pid unit; CPUUsage := usage |}.

(** [processUnits] up to [wg.Wait()], given what
    [systemd.GetSystemdUnitsProps()] returned: the error it returns at once, or
    the tasks it starts. *)
Definition processUnits_start (r : result (list systemd.SystemdUnitProps)) : result (list Task) :=
  match r with
  | Err err => Err ("Unable to get a list of systemd units: " ++ err)%string
  | Ok units => Ok (map TLoad units)
  end.

(** The moves: of the environment, the dispatcher, a task (by its index in the
    tick) and the aggregator. *)
Inductive Label :=
| LCancel                                   (* the context is cancelled *)
| LEnv (f : World -> World)                 (* the world changes *)
| LTimer                                    (* the channel of time.After(cfg.Wait) becomes ready *)
| LEnumerate (r : result (list systemd.SystemdUnitProps))
                                            (* processUnits calls the enumerator, which returns r *)
| LJoined                                   (* wg.Wait() and processUnits return *)
| LShutdown                                 (* the select takes ctx.Done(): close(resultChan) *)
| LCloseClosed                              (* the same, on the closed channel: panic *)
| LTick                                     (* the select takes the timer: next iteration *)
| LLoad (i : nat) (pid : Z) (interval : Duration) (r : result proc.CPUPidUsage)
                                            (* task i: proc.LoadByPID(pid, interval) returns r *)
| LTaskSelect (i : nat)                     (* task i takes a case of its select *)
| LSendClosed (i : nat)                     (* task i sends on the closed channel: panic *)
| LAggStart                                 (* processResult reaches its loop *)
| LAggDone                                  (* its select takes ctx.Done() *)
| LAggEvent (event : backend.BigQuerySchema)(* its select receives an event *)
| LRecv (i : nat) (status : SystemdUnitStatus)
                                            (* its select receives what task i sends *)
| LRecvNil.                                 (* its select receives from the closed channel *)

Inductive Thread :=
| ThEnvironment
| ThDispatcher
| ThTask (i : nat)
| ThAggregator.

(** Whose move a label is; a send and its receive are one move, counted as
    the sending task's. *)
Definition thread_of (l : Label) : Thread :=
  match l with
  | LCancel | LEnv _ | LTimer => ThEnvironment
  | LEnumerate _ | LJoined | LShutdown | LCloseClosed | LTick => ThDispatcher
  | LLoad i _ _ _ | LTaskSelect i | LSendClosed i | LRecv i _ => ThTask i
  | LAggStart | LAggDone | LAggEvent _ | LRecvNil => ThAggregator
  end.

Definition set_sys (s : State) (y : Sys) : State :=
  mkState y (cancelled s) (closed s) (crash s) (disp s) (tasks s) (agg s).
Definition set_cancelled (s : State) : State :=
  mkState (sys s) true (closed s) (crash s) (disp s) (tasks s) (agg s).
Definition set_closed (s : State) : State :=
  mkState (sys s) (cancelled s) true (crash s) (disp s) (tasks s) (agg s).
Definition set_crash (s : State) (p : PanicReason) : State :=
  mkState (sys s) (cancelled s) (closed s) (Some p) (disp s) (tasks s) (agg s).
Definition set_disp (s : State) (d : Dispatcher) : State :=
  mkState (sys s) (cancelled s) (closed s) (crash s) d (tasks s) (agg s).
Definition set_tasks (s : State) (ts : list Task) : State :=
  mkState (sys s) (cancelled s) (closed s) (crash s) (disp s) ts (agg s).
Definition set_agg (s : State) (a : Agg) : State :=
  mkState (sys s) (cancelled s) (closed s) (crash s) (disp s) (tasks s) a.

(** The state after an iteration of the aggregator's loop. *)
Definition after_case (s : State) (r : Outcome * Sys) : State :=
  match fst r with
  | Continue a => set_agg (set_sys s (snd r)) (ALoop a)
  | Return => set_agg (set_sys s (snd r)) AReturned
  | Panic => set_crash (set_sys s (snd r)) NilDereference
  end.

(** [StartWatcher] after [go processResult(...)]: the channel is open, the
    dispatcher is at the head of its loop, the aggregator has been started. *)
Definition init (w : World) : State :=
  {| sys := {| world := w; trace := [] |};
     cancelled := false;
     closed := false;
     crash := None;
     disp := DTop;
     tasks := [];
     agg := AStart |}.

Section Steps.
Variables (cfg : config.Config) (backends : list Backend).

Inductive step : State -> Label -> State -> Prop :=
(* the environment *)
| step_cancel s :
    crash s = None -> cancelled s = false ->
    step s LCancel (set_cancelled s)
| step_env s f :
    crash s = None ->
    step s (LEnv f) (set_sys s (snd (environment f (sys s))))
| step_timer s :
    crash s = None -> disp s = DSelect false ->
    step s LTimer (set_disp s (DSelect true))
(* StartWatcher and processUnits *)
| step_enumerate_err s r err :
    crash s = None -> disp s = DTop ->
    processUnits_start r = Err err ->
    step s (LEnumerate r) (set_disp s (DSelect false))
| step_enumerate_ok s r ts :
    crash s = None -> disp s = DTop ->
    processUnits_start r = Ok ts ->
    step s (LEnumerate r) (set_disp (set_tasks s ts) DWait)
| step_joined s :
    crash s = None -> disp s = DWait ->
    Forall (fun t => t = TDone) (tasks s) ->
    step s LJoined (set_disp (set_tasks s []) (DSelect false))
| step_shutdown s fired :
    crash s = None -> disp s = DSelect fired ->
    cancelled s = true -> closed s = false ->
    step s LShutdown (set_disp (set_closed s) DTop)
| step_close_closed s fired :
    crash s = None -> disp s = DSelect fired ->
    cancelled s = true -> closed s = true ->
    step s LCloseClosed (set_crash s CloseOfClosedChannel)
| step_tick s :
    crash s = None -> disp s = DSelect true ->
    step s LTick (set_disp s DTop)
(* handleUnit *)
| step_load s i unit r :
    crash s = None -> tasks s !! i = Some (TLoad unit) ->
    step s (LLoad i (int32_of_uint32 (systemd.Pid unit)) (config.CPUUsageInterval cfg) r)
           (set_tasks s (<[i := handleUnit_loaded unit r]> (tasks s)))
| step_task_select s i unit usage :
    crash s = None -> tasks s !! i = Some (TSelect unit usage) ->
    step s (LTaskSelect i)
           (set_tasks s (<[i := handleUnit_select (cancelled s) unit usage]> (tasks s)))
| step_send_closed s i status :
    crash s = None -> tasks s !! i = Some (TSend status) ->
    closed s = true ->
    step s (LSendClosed i) (set_crash s SendOnClosedChannel)
(* processResult *)
| step_agg_start s :
    crash s = None -> agg s = AStart ->
    step s LAggStart
           (set_agg (set_sys s (snd (processResult_start (sys s))))
                    (ALoop (fst (processResult_start (sys s)))))
| step_agg_done s a :
    crash s = None -> agg s = ALoop a ->
    cancelled s = true ->
    step s LAggDone (after_case s (processResult_case cfg backends a SelDone (sys s)))
| step_agg_event s a event :
    crash s = None -> agg s = ALoop a ->
    step s (LAggEvent event)
           (after_case s (processResult_case cfg backends a (SelEvent event) (sys s)))
| step_recv s a i status :
    crash s = None -> agg s = ALoop a ->
    tasks s !! i = Some (TSend status) -> closed s = false ->
    step s (LRecv i status)
           (after_case (set_tasks s (<[i := TDone]> (tasks s)))
                       (processResult_case cfg backends a (SelResult (Some status)) (sys s)))
| step_recv_nil s a :
    crash s = None -> agg s = ALoop a ->
    closed s = true ->
    step s LRecvNil (after_case s (processResult_case cfg backends a (SelResult None) (sys s))).

(** A run: the moves made from a state, oldest first, and the state reached. *)
Inductive run : State -> list Label -> State -> Prop :=
| run_nil s : run s [] s
| run_cons s l s' ls s'' : step s l s' -> run s' ls s'' -> run s (l :: ls) s''.

(** The states [StartWatcher] can be in. *)
Definition reachable (s : State) : Prop := exists w ls, run (init w) ls s.

End Steps.

(** A task that is not blocked in its send. *)
Definition not_sending (t : Task) : Prop :=
  match t with TSend _ => False | _ => True end.

(** What holds in every state [StartWatcher] can be in: it has not returned;
    the channel is closed only after the cancellation; tasks exist only while
    [processUnits] waits for them; no task is blocked in a send on the closed
    channel, and none has panicked there. *)
Definition invariant (s : State) : Prop :=
  disp s <> DReturned /\
  (closed s = true -> cancelled s = true) /\
  (disp s <> DWait -> tasks s = []) /\
  (closed s = true -> Forall not_sending (tasks s)) /\
  crash s <> Some SendOnClosedChannel.


(** The moves of the dispatcher and of the tasks. *)
Definition watcher_move (l : Label) : Prop :=
  match thread_of l with
  | ThDispatcher | ThTask _ => True
  | ThEnvironment | ThAggregator => False
  end.

(** What the enumerator and the sampler have returned in the current tick:
    for each task, by its index, its unit and the usage sampled for it, if
    any. *)
Definition Tick : Type := list (systemd.SystemdUnitProps * option proc.CPUPidUsage).

(** The tick after a move: the enumerator's units start it, a sampler's
    answer is noted for its task, and the return of [wg.Wait()] ends it. *)
Definition observe (g : Tick) (l : Label) : Tick :=
  match l with
  | LEnumerate (Ok units) => map (fun unit => (unit, None)) units
  | LJoined => []
  | LLoad i _ _ (Ok usage) =>
      match g !! i with
      | Some (unit, _) => <[i := (unit, Some usage)]> g
      | None => g
      end
  | _ => g
  end.

(** The current tick after the moves [ls], made from the start. *)
Definition observed (ls : list Label) : Tick := fold_left observe ls [].

(** The moves made since the enumerator was last called: those of the tick
    in progress. *)
Definition note (tk : list Label) (l : Label) : list Label :=
  match l with
  | LEnumerate _ => []
  | _ => tk ++ [l]
  end.

Definition since_enumerate (ls : list Label) : list Label := fold_left note ls [].

(** The status [handleUnit] makes of a unit and its usage. *)
Definition status_of (unit : systemd.SystemdUnitProps) (usage : proc.CPUPidUsage) :
    SystemdUnitStatus :=
  {| Name := systemd.Name unit; Pid := systemd.Pid unit; CPUUsage := usage |}.

(** A task agrees with what was observed for it in the tick. *)
Definition task_agrees (t : Task) (o : systemd.SystemdUnitProps * option proc.CPUPidUsage) : Prop :=
  match t with
  | TLoad unit => o = (unit, None)
  | TSelect unit usage => o = (unit, Some usage)
  | TSend status => exists usage, snd o = Some usage /\ status = status_of (fst o) usage
  | TDone => True
  end.

End Watcher.

End watch.

(** ** [config.go]: the api-server's configuration *)

(** What [flagSet.BoolVar], [StringVar] and [IntVar] register: a flag's kind,
    and how a parsed value is stored through the pointer it was given. *)
Module flag.

Inductive FlagVar (C : Type) : Type :=
| BoolVar (set : C -> bool -> C)
| StringVar (set : C -> string -> C)
| IntVar (set : C -> Z -> C).
Arguments BoolVar {C} set.
Arguments StringVar {C} set.
Arguments IntVar {C} set.

(** A flag set: the registered flags, by name. *)
Definition FlagSet (C : Type) : Type := list (string * FlagVar C).

End flag.

Module apiserver.

Record Config := mkConfig {
  FlagVerbose : bool;
  FlagProjectID : string;
  FlagDataset : string;
  FlagEventStreamTableName : string;
  FlagEventBuffer : Z;
  FlagEventFlushInterval : string;
  EventUploadInterval : Duration
}.

Definition set_FlagVerbose (c : Config) (v : bool) : Config :=
  mkConfig v (FlagProjectID c) (FlagDataset c) (FlagEventStreamTableName c)
           (FlagEventBuffer c) (FlagEventFlushInterval c) (EventUploadInterval c).
Definition set_FlagProjectID (c : Config) (v : string) : Config :=
  mkConfig (FlagVerbose c) v (FlagDataset c) (FlagEventStreamTableName c)
           (FlagEventBuffer c) (FlagEventFlushInterval c) (EventUploadInterval c).
Definition set_FlagDataset (c : Config) (v : string) : Config :=
  mkConfig (FlagVerbose c) (FlagProjectID c) v (FlagEventStreamTableName c)
           (FlagEventBuffer c) (FlagEventFlushInterval c) (EventUploadInterval c).
Definition set_FlagEventStreamTableName (c : Config) (v : string) : Config :=
  mkConfig (FlagVerbose c) (FlagProjectID c) (FlagDataset c) v
           (FlagEventBuffer c) (FlagEventFlushInterval c) (EventUploadInterval c).
Definition set_FlagEventBuffer (c : Config) (v : Z) : Config :=
  mkConfig (FlagVerbose c) (FlagProjectID c) (FlagDataset c) (FlagEventStreamTableName c)
           v (FlagEventFlushInterval c) (EventUploadInterval c).
Definition set_FlagEventFlushInterval (c : Config) (v : string) : Config :=
  mkConfig (FlagVerbose c) (FlagProjectID c) (FlagDataset c) (FlagEventStreamTableName c)
           (FlagEventBuffer c) v (EventUploadInterval c).
Definition set_EventUploadInterval (c : Config) (v : Duration) : Config :=
  mkConfig (FlagVerbose c) (FlagProjectID c) (FlagDataset c) (FlagEventStreamTableName c)
           (FlagEventBuffer c) (FlagEventFlushInterval c) v.

(** The method [setFlags] of a [Config]: the flags of the api-server, each bound to its
    field. *)
Definition setFlags : flag.FlagSet Config :=
  [ ("verbose", flag.BoolVar set_FlagVerbose);
    ("project-id", flag.StringVar set_FlagProjectID);
    ("dataset", flag.StringVar set_FlagDataset);
    ("event-stream-table", flag.StringVar set_FlagEventStreamTableName);
    ("event-buffer-size", flag.IntVar set_FlagEventBuffer);
    ("flush-buffer", flag.StringVar set_FlagEventFlushInterval) ]%string.

(** What [NewConfig] calls of Go's library: [os.Getenv], [FlagSet.Parse]
    (with [flag.ContinueOnError]: it stores the flags it has read and returns
    the first error) and [time.ParseDuration]. *)
Class Library := {
  Getenv : string -> string;
  Parse : flag.FlagSet Config -> list string -> Config -> Config * option error;
  ParseDuration : string -> result Duration
}.

Section NewConfig.
Context {L : Library}.

(** [if v := os.Getenv(key); v != "" { set(c, v) }] *)
Definition from_env (key : string) (set : Config -> string -> Config) (c : Config) : Config :=
  let v := Getenv key in
  if String.eqb v "" then c else set c v.

(** The configuration [NewConfig] starts from. *)
Definition defaults : Config :=
  {| FlagVerbose := false;
     FlagProjectID := "massive-bliss-781";
     FlagDataset := "dcos_performance";
     FlagEventStreamTableName := "event_stream";
     FlagEventBuffer := 500;
     FlagEventFlushInterval := "10s";
     EventUploadInterval := 0 |}.

(** The three variables of the environment that [NewConfig] reads. *)
Definition environment (c : Config) : Config :=
  let envPrefix := "API_SERVER_"%string in
  let c := from_env (envPrefix ++ "PROJECT_ID") set_FlagProjectID c in
  let c := from_env (envPrefix ++ "DATASET") set_FlagDataset c in
  from_env (envPrefix ++ "FLUSH_INTERVAL") set_FlagEventFlushInterval c.

(** [NewConfig(args)]: the configuration, or the error returned with a nil
    configuration. *)
Definition NewConfig (args : list string) : result Config :=
  match args with
  | [] => Err "arguments cannot be empty"
  | _ :: args1 =>
      let c := environment defaults in
      match Parse setFlags args1 c with
      | (_, Some err) => Err err
      | (c, None) =>
          match ParseDuration (FlagEventFlushInterval c) with
          | Err err => Err err
          | Ok d => Ok (set_EventUploadInterval c d)
          end
      end
  end.

End NewConfig.

End apiserver.

(** ** A model of the Go library calls of [NewConfig]

    The theorems about [NewConfig] hold for every [apiserver.Library].  The
    examples run it with this one, written after Go's [flag], [strconv] and
    [time] packages.  The numerals are the ones every Go version reads alike
    (decimal integers without a leading zero, durations without a fraction);
    the model rejects the other forms (prefixed or underscored integers,
    fractional durations), which Go reads. *)
Module golib.

Definition is_digit (c : ascii) : bool :=
  (48 <=? nat_of_ascii c)%nat && (nat_of_ascii c <=? 57)%nat.

Definition digit (c : ascii) : Z := Z.of_nat (nat_of_ascii c) - 48.

(** [strconv.Quote], for a string of printable ASCII without quote or
    backslash. *)
Definition quote (s : string) : string :=
  (String (ascii_of_nat 34) s ++ String (ascii_of_nat 34) EmptyString)%string.

(** [strconv.ParseBool] *)
Definition ParseBool (s : string) : option bool :=
  if existsb (String.eqb s) ["1"; "t"; "T"; "TRUE"; "true"; "True"]%string then Some true
  else if existsb (String.eqb s) ["0"; "f"; "F"; "FALSE"; "false"; "False"]%string then Some false
  else None.

(** The value of a string of decimal digits ([None]: some character is no
    digit), read from the left onto [acc]. *)
Fixpoint digits (s : string) (acc : Z) : option Z :=
  match s with
  | EmptyString => Some acc
  | String c s' => if is_digit c then digits s' (10 * acc + digit c) else None
  end.

(** [strconv.ParseInt(s, 0, 64)] on a decimal numeral: an optional sign, then
    [0] or digits that do not start with [0]; the value must fit an [int64]. *)
Definition ParseInt (s : string) : option Z :=
  let (neg, body) :=
    match s with
    | String "-" s' => (true, s')
    | String "+" s' => (false, s')
    | _ => (false, s)
    end in
  match body with
  | EmptyString => None
  | String c rest =>
      if Ascii.eqb c "0" && negb (String.eqb rest "") then None
      else
        match digits body 0 with
        | None => None
        | Some v =>
            let v := if neg then - v else v in
            if (- 2 ^ 63 <=? v) && (v <=? 2 ^ 63 - 1) then Some v else None
        end
  end.

(** The leading digits of a string, and what follows them. *)
Fixpoint leading_digits (s : string) : string * string :=
  match s with
  | EmptyString => (EmptyString, EmptyString)
  | String c s' =>
      if is_digit c then let (d, r) := leading_digits s' in (String c d, r)
      else (EmptyString, s)
  end.

(** The leading unit of a string (the characters before the next digit or
    period), and what follows it. *)
Fixpoint leading_unit (s : string) : string * string :=
  match s with
  | EmptyString => (EmptyString, EmptyString)
  | String c s' =>
      if is_digit c || Ascii.eqb c "." then (EmptyString, s)
      else let (u, r) := leading_unit s' in (String c u, r)
  end.

(** [time.unitMap], a unit's length in nanoseconds. *)
Definition unitMap (u : string) : option Z :=
  if String.eqb u "ns" then Some 1
  else if String.eqb u "us" then Some 1000
  else if String.eqb u "ms" then Some 1000000
  else if String.eqb u "s" then Some 1000000000
  else if String.eqb u "m" then Some 60000000000
  else if String.eqb u "h" then Some 3600000000000
  else None.

Definition invalid_duration (orig : string) : error :=
  ("time: invalid duration " ++ quote orig)%string.

(** The loop of [time.ParseDuration] over the groups of a number and a unit;
    [d] is the sum so far, and [fuel] bounds the number of groups. *)
Fixpoint duration_groups (fuel : nat) (orig s : string) (d : Z) : result Z :=
  match fuel with
  | O => Err (invalid_duration orig)
  | S fuel' =>
      if String.eqb s "" then Ok d
      else
        let (num, s1) := leading_digits s in
        if String.eqb num "" then Err (invalid_duration orig)
        else
          match digits num 0 with
          | None => Err (invalid_duration orig)
          | Some v =>
              if v >? 2 ^ 63 then Err (invalid_duration orig)
              else
                let (u, s2) := leading_unit s1 in
                if String.eqb u "" then
                  if String.eqb s1 "" then Err ("time: missing unit in duration " ++ quote orig)%string
                  else Err (invalid_duration orig)
                else
                  match unitMap u with
                  | None => Err ("time: unknown unit " ++ quote u ++ " in duration " ++ quote orig)%string
                  | Some unit =>
                      if v >? 2 ^ 63 / unit then Err (invalid_duration orig)
                      else if d + v * unit >? 2 ^ 63 then Err (invalid_duration orig)
                      else duration_groups fuel' orig s2 (d + v * unit)
                  end
          end
  end.

(** [time.ParseDuration(s)], in nanoseconds. *)
Definition ParseDuration (orig : string) : result Duration :=
  let (neg, s) :=
    match orig with
    | String "-" s' => (true, s')
    | String "+" s' => (false, s')
    | _ => (false, orig)
    end in
  if String.eqb s "0" then Ok 0
  else if String.eqb s "" then Err (invalid_duration orig)
  else
    match duration_groups (String.length s) orig s 0 with
    | Err e => Err e
    | Ok d =>
        if neg then Ok (- d)
        else if d >? 2 ^ 63 - 1 then Err (invalid_duration orig)
        else Ok d
    end.

(** How [parseOne] of package [flag] reads an argument: no flag (the flags end
    here), the terminator [--], a malformed flag, or a flag's name with the
    value after its [=], if any. *)
Inductive Syntax :=
| NonFlag
| Terminator
| BadSyntax
| Flag (name : string) (value : option string).

(** A name split at its first [=]. *)
Fixpoint split_equals (name : string) : string * option string :=
  match name with
  | EmptyString => (EmptyString, None)
  | String c name' =>
      if Ascii.eqb c "=" then (EmptyString, Some name')
      else let (n, v) := split_equals name' in (String c n, v)
  end.

Definition syntax (s : string) : Syntax :=
  match s with
  | String "-" (String c rest as s1) =>
      if Ascii.eqb c "-" && String.eqb rest "" then Terminator
      else
        match (if Ascii.eqb c "-" then rest else s1) with
        | EmptyString => BadSyntax
        | String c0 name' =>
            if Ascii.eqb c0 "-" || Ascii.eqb c0 "=" then BadSyntax
            else let (n, v) := split_equals name' in Flag (String c0 n) v
        end
  | _ => NonFlag
  end.

Fixpoint lookup {C} (name : string) (formal : flag.FlagSet C) : option (flag.FlagVar C) :=
  match formal with
  | [] => None
  | (n, f) :: formal' => if String.eqb n name then Some f else lookup name formal'
  end.

(** [FlagSet.Parse] with [flag.ContinueOnError]: the values are stored flag by
    flag, up to the end of the flags or the first error. *)
Fixpoint Parse {C} (formal : flag.FlagSet C) (args : list string) (c : C) : C * option error :=
  match args with
  | [] => (c, None)
  | s :: args' =>
      match syntax s with
      | NonFlag | Terminator => (c, None)
      | BadSyntax => (c, Some ("bad flag syntax: " ++ s)%string)
      | Flag name value =>
          match lookup name formal with
          | None =>
              if String.eqb name "help" || String.eqb name "h"
              then (c, Some "flag: help requested"%string)
              else (c, Some ("flag provided but not defined: -" ++ name)%string)
          | Some (flag.BoolVar set) =>
              match value with
              | None => Parse formal args' (set c true)
              | Some v =>
                  match ParseBool v with
                  | Some b => Parse formal args' (set c b)
                  | None =>
                      (c, Some ("invalid boolean value " ++ quote v ++ " for -" ++ name
                                ++ ": parse error")%string)
                  end
              end
          | Some (flag.StringVar set) =>
              match value, args' with
              | Some v, _ => Parse formal args' (set c v)
              | None, v :: args'' => Parse formal args'' (set c v)
              | None, [] => (c, Some ("flag needs an argument: -" ++ name)%string)
              end
          | Some (flag.IntVar set) =>
              let invalid v :=
                (c, Some ("invalid value " ++ quote v ++ " for flag -" ++ name
                          ++ ": parse error")%string) in
              match value, args' with
              | Some v, _ =>
                  match ParseInt v with
                  | Some n => Parse formal args' (set c n)
                  | None => invalid v
                  end
              | None, v :: args'' =>
                  match ParseInt v with
                  | Some n => Parse formal args'' (set c n)
                  | None => invalid v
                  end
              | None, [] => (c, Some ("flag needs an argument: -" ++ name)%string)
              end
          end
      end
  end.

(** The library, over the process's environment [env] ([os.Getenv] returns
    the empty string for a variable that is not set). *)
Definition library (env : list (string * string)) : apiserver.Library :=
  {| apiserver.Getenv key :=
       match find (fun kv => String.eqb (fst kv) key) env with
       | Some kv => snd kv
       | None => EmptyString
       end;
     apiserver.Parse := Parse;
     apiserver.ParseDuration := ParseDuration |}.

End golib.

(** ** Instances for the examples *)

Module example.

(** A world that is its clock, in nanoseconds; rows are kept as they are. *)
Definition runtime : watch.Runtime :=
  {| watch.World := Z;
     watch.clock w := w;
     watch.os_Hostname _ := Ok "host"%string;
     watch.BigQueryRow := backend.BigQuerySchema;
     watch.ToBigQueryRow row := row |}.

(** A sink that stores nothing and fails, and one that succeeds; each call
    takes a nanosecond. *)
Definition failing : @watch.Backend runtime :=
  @watch.mkBackend runtime "bigquery"
    (fun (_ : list backend.BigQuerySchema) (w : Z) => (Some "unavailable"%string, w + 1)).

Definition storing : @watch.Backend runtime :=
  @watch.mkBackend runtime "archive"
    (fun (_ : list backend.BigQuerySchema) (w : Z) => (None, w + 1)).

Definition usage : proc.CPUPidUsage :=
  {| proc.User := 1%float; proc.System := 2%float; proc.Total := 3%float |}.

Definition unit1 : systemd.SystemdUnitProps :=
  {| systemd.Name := "dcos-mesos-master.service"; systemd.Pid := 42 |}.

Definition sample1 : watch.SystemdUnitStatus :=
  {| watch.Name := "dcos-mesos-master.service"; watch.Pid := 42; watch.CPUUsage := usage |}.

Definition sample2 : watch.SystemdUnitStatus :=
  {| watch.Name := "dcos-marathon.service"; watch.Pid := 43; watch.CPUUsage := usage |}.

Definition event1 : backend.BigQuerySchema :=
  {| backend.Name := "deploy"; backend.Timestamp := 7;
     backend.UserCPU_Usage := 0%float; backend.SystemCPU_Usage := 0%float;
     backend.TotalCPU_Usage := 0%float;
     backend.Hostname := "api"; backend.Instance := "1" |}.

(** A tick every second, a sampling window of a second, batches of at most
    [n] rows and at most ten nanoseconds old. *)
Definition cfg (n : Z) : config.Config :=
  {| config.Wait := 1000000000; config.CPUUsageInterval := 1000000000;
     config.FlagBufferSize := n; config.UploadInterval := 10 |}.

(** The world at clock [t], before any call. *)
Definition at_clock (t : Z) : @watch.Sys runtime := @watch.mkSys runtime t [].

Definition start : @watch.Sys runtime := at_clock 0.

Definition aggregator0 : @watch.Aggregator runtime :=
  @watch.mkAggregator runtime [] 0 "host".

Definition unit2 : systemd.SystemdUnitProps :=
  {| systemd.Name := "dcos-marathon.service"; systemd.Pid := 43 |}.

(** [StartWatcher] after a tick without units, the cancellation and the
    shutdown branch: the channel is closed and the loop is at its head. *)
Definition closed_state : @watch.State runtime :=
  @watch.mkState runtime start true true None watch.DTop [] watch.AStart.

(** [StartWatcher] in a tick with two units, both being sampled. *)
Definition sampling_state : @watch.State runtime :=
  @watch.mkState runtime start false false None watch.DWait
    [watch.TLoad unit1; watch.TLoad unit2] watch.AStart.

(** The [select] takes a case after [d] nanoseconds. *)
Definition after (d : Z) (sel : watch.Selected) : @watch.Input runtime :=
  @watch.mkInput runtime (fun w => w + d) sel.

(** The rows made of the two samples when the clock reads [t]. *)
Definition row1 (t : Time) : backend.BigQuerySchema :=
  backend.set_Hostname (watch.ToBigQuerySchema sample1 t) "host".

Definition row2 (t : Time) : backend.BigQuerySchema :=
  backend.set_Hostname (watch.ToBigQuerySchema sample2 t) "host".

End example.

(** * Theorems *)

(** ** The conversion of a sample *)

(** [ToBigQuerySchema] fills the system CPU field from the sample's user value,
    whatever its system value is. *)
Lemma ToBigQuerySchema_SystemCPU (s : watch.SystemdUnitStatus) (now : Time) :
  backend.SystemCPU_Usage (watch.ToBigQuerySchema s now) = proc.User (watch.CPUUsage s).
Proof. reflexivity. Qed.

Lemma float_one_two : 1%float <> 2%float.
Proof.
  intros H. apply (f_equal (fun x => PrimFloat.eqb 1%float x)) in H.
  vm_compute in H. discriminate.
Qed.

(** C1, on a sample with user 1.0, system 2.0 and total 3.0: the row's user
    and total fields are the sample's, and its system field is the sample's
    user value 1.0, not its system value 2.0. *)
Theorem ToBigQuerySchema_loses_System :
  let row := watch.ToBigQuerySchema example.sample1 0 in
  backend.UserCPU_Usage row = proc.User example.usage /\
  backend.TotalCPU_Usage row = proc.Total example.usage /\
  backend.SystemCPU_Usage row = 1%float /\
  proc.System example.usage = 2%float /\
  backend.SystemCPU_Usage row <> proc.System example.usage.
Proof.
  cbn. repeat split; try reflexivity. exact float_one_two.
Qed.

(** ** The uploader *)

Section UploadFacts.
Context {RT : watch.Runtime}.
Import watch.

Lemma new_events_app (s s' : Sys) (evs : list Event) :
  trace s' = trace s ++ evs -> new_events s s' = evs.
Proof.
  intros H. unfold new_events. rewrite H. by rewrite drop_app_length.
Qed.

(** What the loop of [upload] does from any state: it calls the sinks in
    order, in the worlds the calls before left, up to the end of the list or
    the first failure. *)
Lemma upload_loop_calls (items : list BigQueryRow) (backends : list Backend) (s : Sys) :
  exists calls : list Call,
    trace (snd (upload_loop items backends s)) = trace s ++ put_events items calls /\
    threaded items (world s) calls (world (snd (upload_loop items backends s))) /\
    match fst (upload_loop items backends s) with
    | None => calls = map (fun b => (b, None)) backends
    | Some e =>
        exists pre b e0 post,
          backends = pre ++ b :: post /\
          calls = map (fun b => (b, None)) pre ++ [(b, Some e0)] /\
          e = upload_error (ID b) e0
    end.
Proof.
  revert s. induction backends as [|b bs IH]; intros s.
  - exists []. cbn. rewrite app_nil_r. repeat split. constructor.
  - cbn [upload_loop]. unfold bind, call_Put.
    destruct (Put b items (world s)) as [r w1] eqn:HP.
    destruct r as [e0|].
    + exists [(b, Some e0)]. cbn. repeat split.
      * econstructor; [exact HP | constructor].
      * exists [], b, e0, bs. repeat split.
    + destruct (IH {| world := w1; trace := trace s ++ [EvPut b items None] |})
        as (calls & Htr & Hth & Hres).
      exists ((b, None) :: calls). cbn in *. repeat split.
      * rewrite Htr. by rewrite <- app_assoc.
      * econstructor; [exact HP | exact Hth].
      * destruct (fst (upload_loop items bs _)) as [e|].
        -- destruct Hres as (pre & b' & e0 & post & -> & -> & ->).
           exists (b :: pre), b', e0, post. repeat split.
        -- by rewrite Hres.
Qed.

(** C7: [upload] calls the sinks' [Put] in the order of the configuration,
    each in the world the calls before left.  If a [Put] fails, that call is
    the last: no later sink is called, and the error returned is the message
    ["Error uploading to backend <id>: <err>"], made of the failing sink's
    identifier and of its error.  If no [Put] fails, every sink has been
    called and no error is returned. *)
Theorem upload_in_order_until_failure
    (items : list BigQueryRow) (backends : list Backend) (s : Sys) :
  exists calls : list Call,
    trace (snd (upload items backends s)) =
      trace s ++ EvUpload items :: put_events items calls /\
    threaded items (world s) calls (world (snd (upload items backends s))) /\
    match fst (upload items backends s) with
    | None => calls = map (fun b => (b, None)) backends
    | Some e =>
        exists pre b e0 post,
          backends = pre ++ b :: post /\
          calls = map (fun b => (b, None)) pre ++ [(b, Some e0)] /\
          e = ("Error uploading to backend " ++ ID b ++ ": " ++ e0)%string
    end.
Proof.
  unfold upload, bind, emit. cbn.
  destruct (upload_loop_calls items backends
              {| world := world s; trace := trace s ++ [EvUpload items] |})
    as (calls & Htr & Hth & Hres).
  exists calls. cbn in *. split; [|split; [exact Hth|]].
  - rewrite Htr. by rewrite <- app_assoc.
  - destruct (fst (upload_loop items backends _)) as [e|]; [|exact Hres].
    destruct Hres as (pre & b & e0 & post & Hb & Hc & He).
    exists pre, b, e0, post. split; [exact Hb|]. split; [exact Hc|].
    rewrite He. reflexivity.
Qed.

End UploadFacts.

(** ** The aggregator *)

Section AggregatorFacts.
Context {RT : watch.Runtime}.
Import watch.

Lemma upload_trace (items : list BigQueryRow) (backends : list Backend) (s : Sys) :
  exists calls : list Call,
    trace (snd (upload items backends s)) = trace s ++ EvUpload items :: put_events items calls.
Proof.
  unfold upload, bind, emit. cbn.
  destruct (upload_loop_calls items backends
              {| world := world s; trace := trace s ++ [EvUpload items] |})
    as (calls & Htr & _).
  exists calls. cbn in *. rewrite Htr. by rewrite <- app_assoc.
Qed.

Lemma uploaded_put_events (items : list BigQueryRow) (calls : list Call) :
  uploaded (put_events items calls) = [].
Proof. induction calls as [|c calls IH]; [done | exact IH]. Qed.

Lemma uploaded_app (evs1 evs2 : list Event) :
  uploaded (evs1 ++ evs2) = uploaded evs1 ++ uploaded evs2.
Proof. apply omap_app. Qed.

(** The batches handed over by one call of [upload]: its argument. *)
Lemma upload_uploaded (items : list BigQueryRow) (backends : list Backend) (s : Sys) :
  trace s `prefix_of` trace (snd (upload items backends s)) /\
  uploaded (new_events s (snd (upload items backends s))) = [items].
Proof.
  destruct (upload_trace items backends s) as (calls & Htr). split.
  - rewrite Htr. by apply prefix_app_r.
  - rewrite (new_events_app _ _ _ Htr).
    change (EvUpload items :: put_events items calls)
      with ([EvUpload items] ++ put_events items calls).
    by rewrite uploaded_app, uploaded_put_events.
Qed.

Lemma new_events_refl (s : Sys) : new_events s s = [].
Proof. apply new_events_app. by rewrite app_nil_r. Qed.

Lemma new_events_trans (s1 s2 s3 : Sys) :
  trace s1 `prefix_of` trace s2 -> trace s2 `prefix_of` trace s3 ->
  new_events s1 s3 = new_events s1 s2 ++ new_events s2 s3.
Proof.
  intros [e1 H1] [e2 H2].
  rewrite (new_events_app _ _ _ H1), (new_events_app _ _ _ H2).
  apply new_events_app. rewrite H2, H1. by rewrite <- app_assoc.
Qed.

(** The row appended for a result, and whether the batch is then due: neither
    changes the world. *)
Lemma result_row_eq (a : Aggregator) (result : SystemdUnitStatus) (s : Sys) :
  result_row a result s =
    (ToBigQueryRow (backend.set_Hostname (ToBigQuerySchema result (clock (world s))) (hostname a)), s).
Proof. reflexivity. Qed.

Lemma flush_due_eq (cfg : config.Config) (batch : list BigQueryRow) (t : Time) (s : Sys) :
  flush_due cfg batch t s =
    ((Z.of_nat (length batch) >=? config.FlagBufferSize cfg)
     || (clock (world s) - t >=? config.UploadInterval cfg), s).
Proof.
  unfold flush_due.
  destruct (Z.of_nat (length batch) >=? config.FlagBufferSize cfg); reflexivity.
Qed.

(** The case of a result, by what it does: append; if due, upload; after an
    upload without error, a new batch and opening time. *)
Lemma case_result (cfg : config.Config) (backends : list Backend) (a : Aggregator)
    (result : SystemdUnitStatus) (s : Sys) :
  processResult_case cfg backends a (SelResult (Some result)) s =
    let batch := rows a ++ [fst (result_row a result s)] in
    if fst (flush_due cfg batch (updateTime a) s) then
      let r := upload batch backends s in
      match fst r with
      | Some _ => (Continue (mkAggregator batch (updateTime a) (hostname a)), snd r)
      | None => (Continue (mkAggregator [] (clock (world (snd r))) (hostname a)), snd r)
      end
    else (Continue (mkAggregator batch (updateTime a) (hostname a)), s).
Proof.
  cbv zeta. cbn [processResult_case]. unfold bind.
  rewrite result_row_eq. cbn [fst]. rewrite flush_due_eq. cbn [fst].
  destruct (_ || _); [|reflexivity].
  destruct (upload _ backends s) as [[e|] s']; reflexivity.
Qed.

(** What one iteration hands to [upload], for a result. *)
Lemma case_result_uploaded (cfg : config.Config) (backends : list Backend) (a : Aggregator)
    (result : SystemdUnitStatus) (s : Sys) :
  let batch := rows a ++ [fst (result_row a result s)] in
  let out := processResult_case cfg backends a (SelResult (Some result)) s in
  trace s `prefix_of` trace (snd out) /\
  uploaded (new_events s (snd out)) =
    if fst (flush_due cfg batch (updateTime a) s) then [batch] else [].
Proof.
  cbv zeta. rewrite case_result. cbv zeta.
  destruct (fst (flush_due _ _ _ _)).
  - destruct (upload_uploaded (rows a ++ [fst (result_row a result s)]) backends s) as [Hp Hu].
    destruct (fst (upload _ backends s)); cbn [snd]; by split.
  - cbn [snd]. split; [done | by rewrite new_events_refl].
Qed.

(** What one iteration hands to [upload], for an event. *)
Lemma case_event (cfg : config.Config) (backends : list Backend) (a : Aggregator)
    (event : backend.BigQuerySchema) (s : Sys) :
  processResult_case cfg backends a (SelEvent event) s =
    (Continue a, snd (upload [ToBigQueryRow event] backends s)).
Proof.
  cbn [processResult_case]. unfold bind.
  destruct (upload _ backends s); reflexivity.
Qed.

End AggregatorFacts.

Section AggregatorClaims.
Context {RT : watch.Runtime}.
Import watch.

(** C8: an event received by the aggregator is converted to a row and handed
    to [upload] at once, alone in a batch of one row; this does not depend on
    the configuration, the open batch or the clock, and the open batch and its
    opening time stay as they were. *)
Theorem event_uploaded_alone (cfg : config.Config) (backends : list Backend)
    (a : Aggregator) (event : backend.BigQuerySchema) (s : Sys) :
  let out := processResult_case cfg backends a (SelEvent event) s in
  fst out = Continue a /\
  snd out = snd (upload [ToBigQueryRow event] backends s) /\
  uploaded (new_events s (snd out)) = [[ToBigQueryRow event]].
Proof.
  cbv zeta. rewrite case_event. cbn [fst snd].
  repeat split. apply upload_uploaded.
Qed.

(** C5, as the code has it: when a row is appended, the batch is handed to
    [upload] if and only if its row count has reached [FlagBufferSize] or the
    time since [updateTime] has reached [UploadInterval].  A flush whose upload
    returns no error opens an empty batch and sets [updateTime] to the clock,
    whichever trigger caused it; after a flush whose upload fails, the batch
    and [updateTime] are kept. *)
Theorem flush_iff_due (cfg : config.Config) (backends : list Backend)
    (a : Aggregator) (result : SystemdUnitStatus) (s : Sys) :
  let batch := rows a ++ [fst (result_row a result s)] in
  let due := fst (flush_due cfg batch (updateTime a) s) in
  let out := processResult_case cfg backends a (SelResult (Some result)) s in
  (due = true <->
     config.FlagBufferSize cfg <= Z.of_nat (length batch) \/
     config.UploadInterval cfg <= clock (world s) - updateTime a) /\
  uploaded (new_events s (snd out)) = (if due then [batch] else []) /\
  fst out =
    Continue
      (if due then
         match fst (upload batch backends s) with
         | None => mkAggregator [] (clock (world (snd out))) (hostname a)
         | Some _ => mkAggregator batch (updateTime a) (hostname a)
         end
       else mkAggregator batch (updateTime a) (hostname a)).
Proof.
  cbv zeta. split; [|split].
  - rewrite flush_due_eq. cbn [fst]. rewrite orb_true_iff, !Z.geb_le. tauto.
  - apply case_result_uploaded.
  - rewrite case_result. cbv zeta.
    destruct (fst (flush_due _ _ _ _)); [|reflexivity].
    destruct (fst (upload _ backends s)); reflexivity.
Qed.

(** C2, as the code has it: when the upload of a batch fails, the aggregator
    goes on with the same rows and the same opening time: nothing is
    discarded.  The row of the next result is appended to them, so a batch
    handed to [upload] then holds the rows of the failed batch again. *)
Theorem failed_upload_keeps_the_batch (cfg : config.Config) (backends : list Backend)
    (a : Aggregator) (result : SystemdUnitStatus) (s : Sys) (e : error) :
  let batch := rows a ++ [fst (result_row a result s)] in
  let kept := mkAggregator batch (updateTime a) (hostname a) in
  let out := processResult_case cfg backends a (SelResult (Some result)) s in
  fst (flush_due cfg batch (updateTime a) s) = true ->
  fst (upload batch backends s) = Some e ->
  uploaded (new_events s (snd out)) = [batch] /\
  fst out = Continue kept /\
  forall (result' : SystemdUnitStatus) (s' : Sys) (items : list BigQueryRow),
    In items (uploaded (new_events s'
                (snd (processResult_case cfg backends kept (SelResult (Some result')) s')))) ->
    items = batch ++ [fst (result_row kept result' s')].
Proof.
  cbv zeta. intros Hdue Hfail. split; [|split].
  - destruct (case_result_uploaded cfg backends a result s) as [_ H].
    cbv zeta in H. by rewrite Hdue in H.
  - rewrite case_result. cbv zeta. by rewrite Hdue, Hfail.
  - intros result' s' items Hin.
    destruct (case_result_uploaded cfg backends
                (mkAggregator (rows a ++ [fst (result_row a result s)])
                              (updateTime a) (hostname a)) result' s') as [_ H].
    cbv zeta in H. rewrite H in Hin. cbn [rows updateTime] in Hin.
    destruct (fst (flush_due _ _ _ s')).
    + apply list_elem_of_In, list_elem_of_singleton in Hin. exact Hin.
    + apply list_elem_of_In, not_elem_of_nil in Hin. destruct Hin.
Qed.

(** While the [select] only receives events, the loop keeps its locals, and
    hands to [upload] one batch of one row per event, nothing else. *)
Lemma loop_of_events (cfg : config.Config) (backends : list Backend)
    (a : Aggregator) (inputs : list Input) (s : Sys) :
  Forall (fun i => exists event, selected i = SelEvent event) inputs ->
  let out := processResult_loop cfg backends a inputs s in
  trace s `prefix_of` trace (snd out) /\
  fst out = Continue a /\
  uploaded (new_events s (snd out)) =
    omap (fun i => match selected i with
                   | SelEvent event => Some [ToBigQueryRow event]
                   | _ => None
                   end) inputs.
Proof.
  cbv zeta. intros H. revert s. induction H as [|i inputs [event Hi] _ IH]; intros s.
  - cbn. repeat split; [done | by rewrite new_events_refl].
  - set (s1 := {| world := before i (world s); trace := trace s |}).
    assert (Hstep : processResult_loop cfg backends a (i :: inputs) s =
                    processResult_loop cfg backends a inputs
                      (snd (upload [ToBigQueryRow event] backends s1))).
    { cbn [processResult_loop]. unfold bind, environment.
      rewrite Hi. fold s1. pose proof (case_event cfg backends a event s1) as Hc.
      unfold bind in Hc. by rewrite Hc. }
    rewrite Hstep. cbn [omap list_omap]. rewrite Hi.
    destruct (upload_uploaded [ToBigQueryRow event] backends s1) as [Hp Hu].
    destruct (IH (snd (upload [ToBigQueryRow event] backends s1))) as (Hp' & Hout & Hup).
    assert (Hs1 : new_events s s1 = []) by (apply new_events_app; cbn; by rewrite app_nil_r).
    assert (Hp1 : trace s `prefix_of` trace s1) by done.
    assert (Hp2 : trace s1 `prefix_of`
              trace (snd (processResult_loop cfg backends a inputs
                            (snd (upload [ToBigQueryRow event] backends s1)))))
      by (etrans; [exact Hp | exact Hp']).
    split; [|split].
    + etrans; [exact Hp1 | exact Hp2].
    + exact Hout.
    + rewrite (new_events_trans s s1 _ Hp1 Hp2), Hs1. cbn [app].
      rewrite (new_events_trans s1 _ _ Hp Hp'), uploaded_app, Hu, Hup. reflexivity.
Qed.

(** C6, as the code has it: the open batch is handed to [upload] only when a
    row is appended.  While no result arrives, whatever the clock reads, the
    batch stays open and only the events' batches of one row are handed over;
    at the next result, the batch is handed over if and only if it is due
    then. *)
Theorem open_batch_waits_for_a_result (cfg : config.Config) (backends : list Backend)
    (a : Aggregator) (inputs : list Input) (s : Sys) :
  Forall (fun i => exists event, selected i = SelEvent event) inputs ->
  let out := processResult_loop cfg backends a inputs s in
  fst out = Continue a /\
  (forall items, In items (uploaded (new_events s (snd out))) ->
     exists event, items = [ToBigQueryRow event]) /\
  forall result : SystemdUnitStatus,
    let batch := rows a ++ [fst (result_row a result (snd out))] in
    uploaded (new_events (snd out)
                (snd (processResult_case cfg backends a (SelResult (Some result)) (snd out)))) =
      if (config.FlagBufferSize cfg <=? Z.of_nat (length batch))
         || (config.UploadInterval cfg <=? clock (world (snd out)) - updateTime a)
      then [batch] else [].
Proof.
  intros H. destruct (loop_of_events cfg backends a inputs s H) as (_ & Hout & Hup).
  cbv zeta in *. split; [exact Hout | split].
  - intros items Hin. rewrite Hup in Hin.
    apply list_elem_of_In, list_elem_of_omap in Hin as (i & _ & Hi).
    destruct (selected i); naive_solver.
  - intros result.
    destruct (case_result_uploaded cfg backends a result
                (snd (processResult_loop cfg backends a inputs s))) as [_ Hr].
    cbv zeta in Hr. rewrite Hr, flush_due_eq. cbn [fst].
    by rewrite !Z.geb_leb.
Qed.

End AggregatorClaims.

(** *** The aggregator on examples *)

Section AggregatorExamples.
Import watch example.
#[local] Existing Instance runtime.

(** C2 fails as stated.  With batches of one row, a first sink that stores and
    a second that fails: the batch of the first sample is handed to [upload],
    which fails; the second sample is appended to it, and the first sample's
    row is handed over again, and stored by the first sink a second time. *)
Lemma failed_batch_is_handed_again :
  let out := processResult (cfg 1) [storing; failing]
               [after 1 (SelResult (Some sample1)); after 1 (SelResult (Some sample2))] start in
  let b1 := [row1 1] in
  let b2 := [row1 1; row2 4] in
  uploaded (trace (snd out)) = [b1; b2] /\
  In (row1 1) b1 /\ In (row1 1) b2 /\
  In (EvPut storing b1 None) (trace (snd out)) /\
  In (EvPut storing b2 None) (trace (snd out)) /\
  fst out = Continue (mkAggregator b2 0 "host").
Proof.
  cbv zeta. split; [vm_compute; reflexivity|].
  split; [left; reflexivity|]. split; [left; reflexivity|].
  split; [vm_compute; tauto|]. split; [vm_compute; tauto|].
  vm_compute. reflexivity.
Qed.

Lemma failed_upload_keeps_the_batch_witness :
  let s := at_clock 1 in
  fst (flush_due (cfg 1) [row1 1] 0 s) = true /\
  fst (upload [row1 1] [failing] s) = Some "Error uploading to backend bigquery: unavailable"%string /\
  fst (processResult_case (cfg 1) [failing] aggregator0 (SelResult (Some sample1)) s) =
    Continue (mkAggregator [row1 1] 0 "host").
Proof.
  cbv zeta. split; [reflexivity | split; [reflexivity|]].
  apply (@failed_upload_keeps_the_batch runtime (cfg 1) [failing] aggregator0 sample1 (at_clock 1)
           "Error uploading to backend bigquery: unavailable"); reflexivity.
Defined.

(** C5 fails as stated.  With batches of one row and a failing sink, at clock
    5: the appended row triggers a flush by count, the upload fails, and the
    batch keeps its row and its opening time 0 while the clock reads 6. *)
Lemma failed_flush_keeps_the_age_clock :
  let s := at_clock 5 in
  let out := processResult_case (cfg 1) [failing] aggregator0 (SelResult (Some sample1)) s in
  uploaded (new_events s (snd out)) = [[row1 5]] /\
  fst out = Continue (mkAggregator [row1 5] 0 "host") /\
  clock (world (snd out)) = 6 /\
  updateTime (mkAggregator [row1 5] 0 "host") <> clock (world (snd out)).
Proof.
  cbv zeta. split; [vm_compute; reflexivity|]. split; [vm_compute; reflexivity|].
  split; [reflexivity|]. vm_compute. discriminate.
Qed.

(** C6 fails as stated.  With batches of at most ten rows and ten nanoseconds:
    a row is appended at clock 1; an event arrives a thousand nanoseconds
    later.  At clock 1002 the only batch handed to [upload] is the event's, and
    the row is still in the open batch. *)
Lemma lone_row_is_never_flushed :
  let out := processResult (cfg 10) [storing]
               [after 1 (SelResult (Some sample1)); after 1000 (SelEvent event1)] start in
  fst out = Continue (mkAggregator [row1 1] 0 "host") /\
  clock (world (snd out)) = 1002 /\
  1 + config.UploadInterval (cfg 10) < clock (world (snd out)) /\
  uploaded (trace (snd out)) = [[event1]] /\
  forall items, In items (uploaded (trace (snd out))) -> ~ In (row1 1) items.
Proof.
  cbv zeta. split; [vm_compute; reflexivity|]. split; [reflexivity|].
  split; [vm_compute; reflexivity|].
  assert (H : uploaded (trace (snd (processResult (cfg 10) [storing]
               [after 1 (SelResult (Some sample1)); after 1000 (SelEvent event1)] start)))
              = [[event1]]) by (vm_compute; reflexivity).
  split; [exact H|]. intros items Hin. rewrite H in Hin.
  destruct Hin as [<-|[]]. intros [Heq|[]]. discriminate Heq.
Qed.

Lemma open_batch_waits_for_a_result_witness :
  let inputs := [after 1000 (SelEvent event1); after 1000 (SelEvent event1)] in
  let a := mkAggregator [row1 1] 0 "host" in
  Forall (fun i => exists event, selected i = SelEvent event) inputs /\
  fst (processResult_loop (cfg 10) [storing] a inputs start) = Continue a.
Proof.
  cbv zeta.
  assert (H : Forall (fun i : Input => exists event, selected i = SelEvent event)
                [after 1000 (SelEvent event1); after 1000 (SelEvent event1)])
    by (repeat constructor; exists event1; reflexivity).
  split; [exact H|].
  apply (@open_batch_waits_for_a_result runtime (cfg 10) [storing]
           (@mkAggregator runtime [row1 1] 0 "host")
           [after 1000 (SelEvent event1); after 1000 (SelEvent event1)] start H).
Defined.

End AggregatorExamples.

(** ** The api-server's configuration *)

Section NewConfigFacts.
Context {L : apiserver.Library}.
Import apiserver.

(** C10, as the code has it: [NewConfig] checks the flush interval and nothing
    else that it is given.  A configuration is returned only with a flush
    interval that is a duration, held in [EventUploadInterval]; once the flags
    are read without error, a string that is no duration makes [NewConfig]
    return the parser's error and no configuration, and a string that is one
    makes it return the configuration, whatever the event buffer size and the
    duration are. *)
Theorem NewConfig_checks_the_duration_only (args : list string) :
  (forall c : Config,
     NewConfig args = Ok c ->
     ParseDuration (FlagEventFlushInterval c) = Ok (EventUploadInterval c)) /\
  (forall (arg0 : string) (args1 : list string) (c : Config),
     args = arg0 :: args1 ->
     Parse setFlags args1 (environment defaults) = (c, None) ->
     match ParseDuration (FlagEventFlushInterval c) with
     | Err err => NewConfig args = Err err
     | Ok d =>
         NewConfig args = Ok (set_EventUploadInterval c d) /\
         FlagEventBuffer (set_EventUploadInterval c d) = FlagEventBuffer c /\
         EventUploadInterval (set_EventUploadInterval c d) = d
     end).
Proof.
  split.
  - intros c. unfold NewConfig. destruct args as [|arg0 args1]; [discriminate|].
    destruct (Parse setFlags args1 (environment defaults)) as [c' [err|]]; [discriminate|].
    destruct (ParseDuration (FlagEventFlushInterval c')) as [d|err] eqn:HD; [|discriminate].
    intros [= <-]. exact HD.
  - intros arg0 args1 c -> HP. unfold NewConfig. rewrite HP.
    destruct (ParseDuration (FlagEventFlushInterval c)); [repeat split | reflexivity].
Qed.

End NewConfigFacts.

Section NewConfigExamples.
Import apiserver.

Lemma NewConfig_checks_the_duration_only_witness :
  @Parse (golib.library []) setFlags ["-flush-buffer"; "soon"]%string
     (@environment (golib.library []) defaults) =
    (set_FlagEventFlushInterval defaults "soon", None) /\
  @NewConfig (golib.library []) ["api-server"; "-flush-buffer"; "soon"]%string =
    Err (golib.invalid_duration "soon").
Proof.
  split; [reflexivity|].
  exact (proj2 (@NewConfig_checks_the_duration_only (golib.library [])
                  ["api-server"; "-flush-buffer"; "soon"]%string)
           "api-server"%string ["-flush-buffer"; "soon"]%string
           (set_FlagEventFlushInterval defaults "soon") eq_refl eq_refl).
Defined.

(** C10 fails as stated.  With no variable set in the environment,
    [api-server -event-buffer-size -5 -flush-buffer=-10s] is given a
    configuration with an event buffer of -5 rows and an upload interval of
    minus ten seconds. *)
Lemma NewConfig_accepts_a_negative_buffer :
  exists c : Config,
    @NewConfig (golib.library [])
      ["api-server"; "-event-buffer-size"; "-5"; "-flush-buffer=-10s"]%string = Ok c /\
    FlagEventBuffer c = -5 /\
    EventUploadInterval c = -10000000000.
Proof. eexists. split; [vm_compute; reflexivity | split; reflexivity]. Qed.

End NewConfigExamples.

(** ** The goroutines of [StartWatcher] *)

Section WatcherFacts.
Context {RT : watch.Runtime}.
Variables (cfg : config.Config) (backends : list watch.Backend).
Import watch.

Lemma after_case_fields (s : State) (r : Outcome * Sys) :
  cancelled (after_case s r) = cancelled s /\
  closed (after_case s r) = closed s /\
  disp (after_case s r) = disp s /\
  tasks (after_case s r) = tasks s /\
  (crash (after_case s r) = crash s \/ crash (after_case s r) = Some NilDereference).
Proof. unfold after_case. destruct (fst r); cbn; tauto. Qed.

Lemma processUnits_start_Ok (r : result (list systemd.SystemdUnitProps)) (ts : list Task) :
  processUnits_start r = Ok ts -> exists units, r = Ok units /\ ts = map TLoad units.
Proof. destruct r as [units|e]; cbn; intros [= <-]. by exists units. Qed.

Lemma Forall_not_sending_loads (units : list systemd.SystemdUnitProps) :
  Forall not_sending (map TLoad units).
Proof. induction units; constructor; done. Qed.

Lemma invariant_init (w : World) : invariant (init w).
Proof. unfold invariant. cbn. repeat split; (done || constructor). Qed.

Lemma invariant_after_case (s : State) (r : Outcome * Sys) :
  invariant s -> invariant (after_case s r).
Proof.
  intros (H1 & H2 & H3 & H4 & H5).
  destruct (after_case_fields s r) as (E1 & E2 & E3 & E4 & E5).
  unfold invariant. rewrite E1, E2, E3, E4. repeat split; try done.
  destruct E5 as [-> | ->]; done.
Qed.

Lemma invariant_set_task (s : State) (i : nat) (t t' : Task) :
  tasks s !! i = Some t -> (closed s = true -> not_sending t') ->
  invariant s -> invariant (set_tasks s (<[i := t']> (tasks s))).
Proof.
  intros Hi Ht' (I1 & I2 & I3 & I4 & I5). unfold invariant. cbn.
  repeat split; try done.
  - intros Hd. rewrite (I3 Hd) in Hi. done.
  - intros Hc. apply Forall_insert; auto.
Qed.

(** Every move keeps the invariant. *)
Lemma invariant_step (s : State) (l : Label) (s' : State) :
  step cfg backends s l s' -> invariant s -> invariant s'.
Proof.
  intros Hstep Hinv. destruct Hstep.
  - destruct Hinv as (I1 & I2 & I3 & I4 & I5). unfold invariant. cbn. done.
  - destruct Hinv as (I1 & I2 & I3 & I4 & I5). unfold invariant. cbn. done.
  - destruct Hinv as (I1 & I2 & I3 & I4 & I5). unfold invariant. cbn.
    repeat split; try done. intros _. apply I3. congruence.
  - destruct Hinv as (I1 & I2 & I3 & I4 & I5). unfold invariant. cbn.
    repeat split; try done. intros _. apply I3. congruence.
  - destruct Hinv as (I1 & I2 & I3 & I4 & I5). unfold invariant. cbn.
    apply processUnits_start_Ok in H1 as (units & -> & ->).
    repeat split; try done. intros _. apply Forall_not_sending_loads.
  - destruct Hinv as (I1 & I2 & I3 & I4 & I5). unfold invariant. cbn.
    repeat split; try done.
  - destruct Hinv as (I1 & I2 & I3 & I4 & I5). unfold invariant. cbn.
    repeat split; try done; intros _.
    + apply I3. congruence.
    + rewrite I3 by congruence. constructor.
  - destruct Hinv as (I1 & I2 & I3 & I4 & I5). unfold invariant. cbn. done.
  - destruct Hinv as (I1 & I2 & I3 & I4 & I5). unfold invariant. cbn.
    repeat split; try done. intros _. apply I3. congruence.
  - eapply invariant_set_task; [done | | done]. by destruct r.
  - eapply invariant_set_task; [done | | done].
    intros Hc. destruct Hinv as (_ & I2 & _). rewrite (I2 Hc). exact I.
  - destruct Hinv as (I1 & I2 & I3 & I4 & I5).
    specialize (I4 H1). rewrite Forall_lookup in I4. destruct (I4 _ _ H0).
  - destruct Hinv as (I1 & I2 & I3 & I4 & I5). unfold invariant. cbn. done.
  - by apply invariant_after_case.
  - by apply invariant_after_case.
  - apply invariant_after_case. eapply invariant_set_task; done.
  - by apply invariant_after_case.
Qed.

Lemma invariant_run (s : State) (ls : list Label) (s' : State) :
  run cfg backends s ls s' -> invariant s -> invariant s'.
Proof. induction 1; eauto using invariant_step. Qed.

Lemma invariant_reachable (s : State) : reachable cfg backends s -> invariant s.
Proof. intros (w & ls & Hrun). eapply invariant_run; [done | apply invariant_init]. Qed.

Lemma run_app (s : State) (ls : list Label) (s' : State) (ls' : list Label) (s'' : State) :
  run cfg backends s ls s' -> run cfg backends s' ls' s'' -> run cfg backends s (ls ++ ls') s''.
Proof. induction 1; cbn; intros; [done | econstructor; eauto]. Qed.

Lemma reachable_run (s : State) (ls : list Label) (s' : State) :
  reachable cfg backends s -> run cfg backends s ls s' -> reachable cfg backends s'.
Proof. intros (w & ls0 & H0) H. exists w, (ls0 ++ ls). by eapply run_app. Qed.

(** At its select with the context done and the timer not fired, the
    dispatcher can only take the shutdown branch: it closes the channel and
    goes back to the head of the loop, or panics on the closed channel. *)
Lemma select_after_cancel (s : State) (l : Label) (s' : State) :
  step cfg backends s l s' -> thread_of l = ThDispatcher ->
  disp s = DSelect false -> cancelled s = true ->
  if closed s
  then l = LCloseClosed /\ s' = set_crash s CloseOfClosedChannel
  else l = LShutdown /\ s' = set_disp (set_closed s) DTop.
Proof.
  intros Hstep Hth Hd Hc. destruct Hstep; cbn in Hth; try discriminate; try congruence.
  - rewrite H2. done.
  - rewrite H2. done.
Qed.

(** At the head of its loop the dispatcher can only call the enumerator. *)
Lemma top_of_loop_enumerates (s : State) (l : Label) (s' : State) :
  step cfg backends s l s' -> thread_of l = ThDispatcher ->
  disp s = DTop -> exists r, l = LEnumerate r.
Proof.
  intros Hstep Hth Hd. destruct Hstep; cbn in Hth; try discriminate; try congruence; eauto.
Qed.

(** No task sends on the closed channel. *)
Lemma no_send_on_closed_step (s : State) (l : Label) (s' : State) :
  step cfg backends s l s' -> invariant s -> forall i, l <> LSendClosed i.
Proof.
  intros Hstep (I1 & I2 & I3 & I4 & I5) j. destruct Hstep; try discriminate.
  specialize (I4 H1). rewrite Forall_lookup in I4. destruct (I4 _ _ H0).
Qed.

Lemma no_send_on_closed_run (s : State) (ls : list Label) (s' : State) :
  run cfg backends s ls s' -> invariant s -> forall i, ~ In (LSendClosed i) ls.
Proof.
  induction 1 as [|s l s1 ls s2 Hstep Hrun IH]; intros Hinv i; [by intros []|].
  intros [Heq|Hin].
  - by eapply no_send_on_closed_step.
  - eapply IH; eauto using invariant_step.
Qed.

(** The channel stays closed, and is closed once. *)
Lemma closed_step (s : State) (l : Label) (s' : State) :
  step cfg backends s l s' -> closed s = true -> closed s' = true /\ l <> LShutdown.
Proof.
  intros Hstep Hc.
  destruct Hstep; cbn -[processResult_case after_case];
    try (split; [done | discriminate]); try congruence;
    match goal with
    | |- closed (after_case ?s ?r) = true /\ _ =>
        destruct (after_case_fields s r) as (_ & -> & _); split; [done | discriminate]
    end.
Qed.

Lemma closed_run (s : State) (ls : list Label) (s' : State) :
  run cfg backends s ls s' -> invariant s -> closed s = true ->
  closed s' = true /\ cancelled s' = true /\ Forall not_sending (tasks s') /\
  ~ In LShutdown ls.
Proof.
  induction 1 as [s|s l s1 ls s2 Hstep Hrun IH]; intros Hinv Hc.
  - destruct Hinv as (I1 & I2 & I3 & I4 & I5). repeat split; auto.
  - destruct (closed_step _ _ _ Hstep Hc) as [Hc1 Hl].
    destruct (IH (invariant_step _ _ _ Hstep Hinv) Hc1) as (? & ? & ? & Hn).
    repeat split; try done. intros [Heq|Hin]; [by apply Hl | by apply Hn].
Qed.

Lemma set_tasks_id (s : State) : set_tasks s (tasks s) = s.
Proof. by destruct s. Qed.

(** With the context done, the tasks that are not blocked in a send all
    return, one after the other, whatever the sampler answers. *)
Lemma tasks_finish (rest done : list Task) (s : State) :
  tasks s = done ++ rest -> Forall not_sending rest ->
  cancelled s = true -> crash s = None ->
  exists ls,
    run cfg backends s ls (set_tasks s (done ++ map (fun _ => TDone) rest)) /\
    Forall watcher_move ls.
Proof.
  revert done s. induction rest as [|t rest IH]; intros done s Ht Hns Hc Hcr.
  - exists []. cbn. rewrite <- Ht, set_tasks_id. split; constructor.
  - apply Forall_cons in Hns as [Hnt Hns].
    assert (Hi : tasks s !! length done = Some t) by (rewrite Ht; apply list_lookup_middle; done).
    assert (Hins : forall t', <[length done := t']> (tasks s) = (done ++ [t']) ++ rest).
    { intros t'. rewrite Ht, insert_app_r_alt, Nat.sub_diag by lia. cbn.
      by rewrite <- app_assoc. }
    assert (Hfin : done ++ map (fun _ => TDone) (t :: rest) =
                   (done ++ [TDone]) ++ map (fun _ => TDone) rest)
      by (cbn; by rewrite <- app_assoc).
    rewrite Hfin.
    destruct t as [unit|unit usage|status|].
    + destruct (IH (done ++ [TDone]) (set_tasks s ((done ++ [TDone]) ++ rest)))
        as (ls & Hrun & Hls); try done.
      exists (LLoad (length done) (int32_of_uint32 (systemd.Pid unit))
                (config.CPUUsageInterval cfg) (Err "no such process") :: ls).
      split; [|constructor; done].
      econstructor; [|exact Hrun].
      rewrite <- (Hins TDone). by apply (step_load cfg backends s _ unit (Err _)).
    + destruct (IH (done ++ [TDone]) (set_tasks s ((done ++ [TDone]) ++ rest)))
        as (ls & Hrun & Hls); try done.
      exists (LTaskSelect (length done) :: ls).
      split; [|constructor; done].
      econstructor; [|exact Hrun].
      rewrite <- (Hins TDone).
      pose proof (step_task_select cfg backends s _ unit usage Hcr Hi) as Hstep.
      unfold handleUnit_select in Hstep. by rewrite Hc in Hstep.
    + destruct Hnt.
    + apply IH; try done. by rewrite Ht, <- app_assoc.
Qed.

(** From a state with the channel closed, the dispatcher and its tasks can
    always go on to the second [close]. *)
Lemma second_close_is_possible (s : State) :
  invariant s -> closed s = true -> crash s = None ->
  exists ls s',
    run cfg backends s ls s' /\ Forall watcher_move ls /\
    crash s' = Some CloseOfClosedChannel.
Proof.
  intros (I1 & I2 & I3 & I4 & I5) Hc Hcr.
  assert (Hclose : forall s1 fired,
            disp s1 = DSelect fired -> cancelled s1 = true -> closed s1 = true ->
            crash s1 = None ->
            run cfg backends s1 [LCloseClosed] (set_crash s1 CloseOfClosedChannel)).
  { intros s1 fired ? ? ? ?. econstructor; [by eapply step_close_closed | constructor]. }
  destruct (disp s) as [| |fired|] eqn:Hd; [| | |done].
  - exists [LEnumerate (Err "no bus"); LCloseClosed], (set_crash (set_disp s (DSelect false)) CloseOfClosedChannel).
    split; [|split; [repeat constructor | done]].
    econstructor; [by eapply step_enumerate_err|].
    eapply Hclose; cbn; eauto.
  - destruct (tasks_finish (tasks s) [] s) as (ls & Hrun & Hls); auto.
    set (s1 := set_tasks s ([] ++ map (fun _ => TDone) (tasks s))) in *.
    set (s2 := set_disp (set_tasks s1 []) (DSelect false)).
    exists (ls ++ [LJoined; LCloseClosed]), (set_crash s2 CloseOfClosedChannel).
    split; [|split; [|done]].
    + eapply run_app; [exact Hrun|].
      econstructor.
      * apply step_joined; [done | done |]. cbn. apply Forall_forall.
        intros t Ht. apply list_elem_of_In, in_map_iff in Ht as (? & <- & _). done.
      * eapply Hclose; cbn; eauto.
    + apply Forall_app. split; [done | repeat constructor].
  - exists [LCloseClosed], (set_crash s CloseOfClosedChannel).
    split; [|split; [repeat constructor | done]]. eapply Hclose; eauto.
Qed.

(** A task blocked in its send after the aggregator has returned stays
    blocked, and the dispatcher stays in [wg.Wait()]. *)
Lemma blocked_sender_step (s : State) (i : nat) (status : SystemdUnitStatus)
    (l : Label) (s' : State) :
  agg s = AReturned -> disp s = DWait -> closed s = false ->
  tasks s !! i = Some (TSend status) ->
  step cfg backends s l s' ->
  agg s' = AReturned /\ disp s' = DWait /\ closed s' = false /\
  tasks s' !! i = Some (TSend status) /\ thread_of l <> ThDispatcher.
Proof.
  intros Ha Hd Hc Hi Hstep.
  destruct Hstep; cbn; try congruence; try (repeat split; done).
  - rewrite Forall_lookup in H1. specialize (H1 _ _ Hi). discriminate.
  - repeat split; try done.
    rewrite list_lookup_insert_ne; [done | congruence].
  - repeat split; try done.
    rewrite list_lookup_insert_ne; [done | congruence].
Qed.

Lemma blocked_sender_run (s : State) (i : nat) (status : SystemdUnitStatus)
    (ls : list Label) (s' : State) :
  run cfg backends s ls s' ->
  agg s = AReturned -> disp s = DWait -> closed s = false ->
  tasks s !! i = Some (TSend status) ->
  disp s' = DWait /\ closed s' = false /\
  Forall (fun l => thread_of l <> ThDispatcher) ls.
Proof.
  induction 1 as [s|s l s1 ls s2 Hstep Hrun IH]; intros Ha Hd Hc Hi.
  - repeat split; done.
  - destruct (blocked_sender_step s i status l s1) as (? & ? & ? & ? & ?); try done.
    destruct IH as (? & ? & ?); try done. repeat split; try done. by constructor.
Qed.





Lemma case_result_continues (a : Aggregator) (status : SystemdUnitStatus) (y : Sys) :
  exists a', fst (processResult_case cfg backends a (SelResult (Some status)) y) = Continue a'.
Proof.
  rewrite case_result. cbv zeta.
  destruct (fst (flush_due _ _ _ _)); [|eauto].
  destruct (fst (upload _ backends y)); eauto.
Qed.


(** C4, as the code has it: [StartWatcher] never returns.  With the context
    done and the timer not fired, its select can only take the shutdown
    branch: it closes the channel and goes back to the head of the loop, where
    it can only call the enumerator again; taken with the channel closed, the
    branch panics on the second [close].  No task ever sends on the closed
    channel: once it is closed it stays closed, the context is done, and no
    task is blocked in a send.  From every state with the channel closed, the
    dispatcher and its tasks can go on to the second [close]. *)
Theorem cancelled_watcher_closes_twice (s : State) :
  reachable cfg backends s ->
  disp s <> DReturned /\
  (forall l s',
     step cfg backends s l s' -> thread_of l = ThDispatcher ->
     disp s = DSelect false -> cancelled s = true ->
     if closed s
     then l = LCloseClosed /\ s' = set_crash s CloseOfClosedChannel
     else l = LShutdown /\ s' = set_disp (set_closed s) DTop) /\
  (forall l s',
     step cfg backends s l s' -> thread_of l = ThDispatcher ->
     disp s = DTop -> exists r, l = LEnumerate r) /\
  (forall ls s' i, run cfg backends s ls s' -> ~ In (LSendClosed i) ls) /\
  (closed s = true ->
     forall ls s', run cfg backends s ls s' ->
       closed s' = true /\ cancelled s' = true /\ Forall not_sending (tasks s') /\
       ~ In LShutdown ls) /\
  (closed s = true -> crash s = None ->
     exists ls s',
       run cfg backends s ls s' /\ Forall watcher_move ls /\
       crash s' = Some CloseOfClosedChannel).
Proof.
  intros Hreach. pose proof (invariant_reachable s Hreach) as Hinv.
  split; [apply Hinv|]. split; [apply select_after_cancel|].
  split; [apply top_of_loop_enumerates|]. split; [|split].
  - intros ls s' i Hrun. by eapply no_send_on_closed_run.
  - intros Hc ls s' Hrun. by eapply closed_run.
  - intros Hc Hcr. by apply second_close_is_possible.
Qed.


End WatcherFacts.

(** *** The goroutines on examples *)

Section WatcherExamples.
Import watch example.
#[local] Existing Instance runtime.

Lemma closed_state_reachable : reachable (cfg 10) [storing] closed_state.
Proof.
  exists 0, [LEnumerate (Ok []); LJoined; LCancel; LShutdown].
  eapply run_cons; [eapply step_enumerate_ok; reflexivity|].
  eapply run_cons; [eapply step_joined; [reflexivity | reflexivity | constructor]|].
  eapply run_cons; [eapply step_cancel; reflexivity|].
  eapply run_cons; [eapply step_shutdown; reflexivity|].
  apply run_nil.
Qed.

(** C3, on a run: the context is cancelled while the dispatcher waits in its
    select; the select takes the shutdown branch and closes the channel; the
    loop goes on, calls the enumerator again and starts a task for the unit it
    returns. *)
Theorem watcher_ticks_after_cancellation :
  exists s : State,
    run (cfg 10) [storing] (init 0)
      [LEnumerate (Ok []); LJoined; LCancel; LShutdown; LEnumerate (Ok [unit1])] s /\
    cancelled s = true /\ closed s = true /\ crash s = None /\
    disp s = DWait /\ tasks s = [TLoad unit1].
Proof.
  eexists. split.
  - eapply run_cons; [eapply step_enumerate_ok; reflexivity|].
    eapply run_cons; [eapply step_joined; [reflexivity | reflexivity | constructor]|].
    eapply run_cons; [eapply step_cancel; reflexivity|].
    eapply run_cons; [eapply step_shutdown; reflexivity|].
    eapply run_cons; [eapply step_enumerate_ok; reflexivity|].
    apply run_nil.
  - cbn. repeat split.
Qed.

Lemma cancelled_watcher_closes_twice_witness :
  reachable (cfg 10) [storing] closed_state /\
  exists ls s',
    run (cfg 10) [storing] closed_state ls s' /\ Forall watcher_move ls /\
    crash s' = Some CloseOfClosedChannel.
Proof.
  split; [exact closed_state_reachable|].
  exact (proj2 (proj2 (proj2 (proj2 (proj2
           (@cancelled_watcher_closes_twice runtime (cfg 10) [storing] closed_state
              closed_state_reachable))))) eq_refl eq_refl).
Defined.

(** C4 fails as stated, twice.  A task is blocked in its send when the context
    is cancelled and the aggregator takes its [ctx.Done()] case: from then on
    the dispatcher stays in [wg.Wait()], makes no move and never closes the
    channel.  And in no run does a task send on the closed channel. *)
Lemma blocked_task_stops_the_dispatcher :
  (exists s : State,
     run (cfg 10) [storing] (init 0)
       [LAggStart; LEnumerate (Ok [unit1]); LLoad 0 42 1000000000 (Ok usage);
        LTaskSelect 0; LCancel; LAggDone] s /\
     cancelled s = true /\ tasks s = [TSend sample1] /\
     forall ls s',
       run (cfg 10) [storing] s ls s' ->
       disp s' = DWait /\ closed s' = false /\
       Forall (fun l => thread_of l <> ThDispatcher) ls) /\
  (forall w ls s i, run (cfg 10) [storing] (init w) ls s -> ~ In (LSendClosed i) ls).
Proof.
  split.
  - eexists. split; [|split; [|split]].
    + eapply run_cons; [eapply step_agg_start; reflexivity|].
      eapply run_cons; [eapply step_enumerate_ok; reflexivity|].
      eapply run_cons;
        [eapply (step_load (cfg 10) [storing] _ 0%nat unit1 (Ok usage)); reflexivity|].
      eapply run_cons; [eapply (step_task_select _ _ _ 0%nat unit1 usage); reflexivity|].
      eapply run_cons; [eapply step_cancel; reflexivity|].
      eapply run_cons; [eapply step_agg_done; reflexivity|].
      apply run_nil.
    + reflexivity.
    + reflexivity.
    + intros ls s' Hrun.
      eapply (blocked_sender_run (cfg 10) [storing] _ 0%nat sample1); [exact Hrun | | | |];
        reflexivity.
  - intros w ls s i Hrun.
    eapply no_send_on_closed_run; [exact Hrun | apply invariant_init].
Qed.

Lemma sampling_state_reachable : reachable (cfg 10) [storing] sampling_state.
Proof.
  exists 0, [LEnumerate (Ok [unit1; unit2])].
  eapply run_cons; [eapply step_enumerate_ok; reflexivity|]. apply run_nil.
Qed.


End WatcherExamples.

(** ** More on the uploader and the aggregator *)

Section AggregatorMore.
Context {RT : watch.Runtime}.
Import watch.

Lemma upload_loop_never_fails (items : list BigQueryRow) (backends : list Backend) (s : Sys) :
  never_fail backends ->
  fst (upload_loop items backends s) = None /\
  trace (snd (upload_loop items backends s)) =
    trace s ++ map (fun b => EvPut b items None) backends.
Proof.
  intros H. revert s. induction H as [|b bs Hb _ IH]; intros s.
  - cbn. by rewrite app_nil_r.
  - cbn [upload_loop]. unfold bind, call_Put.
    specialize (Hb items (world s)).
    destruct (Put b items (world s)) as [r w1]. cbn in Hb. subst r.
    destruct (IH {| world := w1; trace := trace s ++ [EvPut b items None] |}) as [H1 H2].
    split; [exact H1|]. rewrite H2. cbn. by rewrite <- app_assoc.
Qed.

(** With sinks that do not fail, [upload] returns no error, and every sink of
    the configuration has been given the batch once, in the order of the
    configuration. *)
Theorem upload_stores_everywhere (items : list BigQueryRow) (backends : list Backend) (s : Sys) :
  never_fail backends ->
  fst (upload items backends s) = None /\
  new_events s (snd (upload items backends s)) =
    EvUpload items :: map (fun b => EvPut b items None) backends.
Proof.
  intros H. unfold upload, bind, emit. cbn.
  destruct (upload_loop_never_fails items backends
              {| world := world s; trace := trace s ++ [EvUpload items] |} H) as [H1 H2].
  split; [exact H1|]. apply new_events_app. rewrite H2. cbn. by rewrite <- app_assoc.
Qed.

(** The loop, one input at a time. *)
Lemma loop_cons (cfg : config.Config) (backends : list Backend) (a : Aggregator)
    (i : Input) (inputs : list Input) (s : Sys) :
  processResult_loop cfg backends a (i :: inputs) s =
    let r := processResult_case cfg backends a (selected i) (snd (environment (before i) s)) in
    match fst r with
    | Continue a' => processResult_loop cfg backends a' inputs (snd r)
    | Return => (Return, snd r)
    | Panic => (Panic, snd r)
    end.
Proof.
  cbn [processResult_loop]. unfold bind at 1. unfold environment at 1. unfold bind at 1.
  cbn [snd environment].
  destruct (processResult_case cfg backends a (selected i) _) as [[a'| |] s']; reflexivity.
Qed.

(** The loop over inputs given in two parts: the second part is read only if
    the loop is still running after the first. *)
Lemma loop_app (cfg : config.Config) (backends : list Backend) (a : Aggregator)
    (pre post : list Input) (s : Sys) :
  processResult_loop cfg backends a (pre ++ post) s =
    match fst (processResult_loop cfg backends a pre s) with
    | Continue a1 =>
        processResult_loop cfg backends a1 post (snd (processResult_loop cfg backends a pre s))
    | _ => processResult_loop cfg backends a pre s
    end.
Proof.
  revert a s. induction pre as [|i pre IH]; intros a s; [reflexivity|].
  rewrite <- app_comm_cons, !loop_cons. cbv zeta.
  destruct (fst (processResult_case cfg backends a (selected i) _)); [apply IH | done | done].
Qed.

(** When the context is done the open batch is dropped: if the select takes
    [ctx.Done()] after some inputs, [processResult] returns without handing
    anything to [upload], whatever rows are in the open batch, and reads no
    later input. *)
Theorem shutdown_drops_the_open_batch (cfg : config.Config) (backends : list Backend)
    (a : Aggregator) (pre : list Input) (i : Input) (post : list Input) (s : Sys)
    (a1 : Aggregator) (s1 : Sys) :
  processResult_loop cfg backends a pre s = (Continue a1, s1) ->
  selected i = SelDone ->
  processResult_loop cfg backends a (pre ++ i :: post) s =
    (Return, {| world := before i (world s1); trace := trace s1 |}) /\
  new_events s1 (snd (processResult_loop cfg backends a (pre ++ i :: post) s)) = [].
Proof.
  intros Hpre Hi. rewrite loop_app, Hpre. cbn [fst snd].
  rewrite loop_cons, Hi. cbn. split; [reflexivity|].
  apply new_events_app. cbn. by rewrite app_nil_r.
Qed.

Lemma case_prefix (cfg : config.Config) (backends : list Backend) (a : Aggregator)
    (sel : Selected) (s : Sys) :
  trace s `prefix_of` trace (snd (processResult_case cfg backends a sel s)).
Proof.
  destruct sel as [|event|[result|]]; try done.
  - rewrite case_event. apply upload_uploaded.
  - apply case_result_uploaded.
Qed.

Lemma loop_prefix (cfg : config.Config) (backends : list Backend) (a : Aggregator)
    (inputs : list Input) (s : Sys) :
  trace s `prefix_of` trace (snd (processResult_loop cfg backends a inputs s)).
Proof.
  revert a s. induction inputs as [|i inputs IH]; intros a s; [done|].
  rewrite loop_cons. cbv zeta.
  pose proof (case_prefix cfg backends a (selected i) (snd (environment (before i) s))) as Hp.
  destruct (fst (processResult_case cfg backends a (selected i) _)); try exact Hp.
  etrans; [exact Hp | apply IH].
Qed.

(** The calls of the loop: those of its first iteration, then those of the
    rest, if the loop goes on. *)
Lemma loop_cons_events (cfg : config.Config) (backends : list Backend) (a : Aggregator)
    (i : Input) (inputs : list Input) (s : Sys) :
  new_events s (snd (processResult_loop cfg backends a (i :: inputs) s)) =
    let s1 := snd (environment (before i) s) in
    let r := processResult_case cfg backends a (selected i) s1 in
    new_events s1 (snd r) ++
    match fst r with
    | Continue a' => new_events (snd r) (snd (processResult_loop cfg backends a' inputs (snd r)))
    | _ => []
    end.
Proof.
  rewrite loop_cons. cbv zeta.
  set (s1 := snd (environment (before i) s)).
  assert (Hs1 : forall x, new_events s x = new_events s1 x) by done.
  pose proof (case_prefix cfg backends a (selected i) s1) as Hp.
  destruct (fst (processResult_case cfg backends a (selected i) s1)) as [a'| |];
    cbn [snd]; rewrite Hs1; [|by rewrite app_nil_r..].
  apply new_events_trans; [exact Hp | apply loop_prefix].
Qed.

Lemma upload_never_fails (items : list BigQueryRow) (backends : list Backend) (s : Sys) :
  never_fail backends -> fst (upload items backends s) = None.
Proof.
  intros H. unfold upload, bind, emit. cbn. by apply upload_loop_never_fails.
Qed.

(** The case of a result when no sink fails. *)
Lemma case_result_never_fail (cfg : config.Config) (backends : list Backend) (a : Aggregator)
    (result : SystemdUnitStatus) (s : Sys) :
  never_fail backends ->
  let batch := rows a ++ [fst (result_row a result s)] in
  let r := processResult_case cfg backends a (SelResult (Some result)) s in
  if fst (flush_due cfg batch (updateTime a) s)
  then fst r = Continue (mkAggregator [] (clock (world (snd r))) (hostname a)) /\
       uploaded (new_events s (snd r)) = [batch]
  else fst r = Continue (mkAggregator batch (updateTime a) (hostname a)) /\
       uploaded (new_events s (snd r)) = [].
Proof.
  intros H. cbv zeta.
  destruct (case_result_uploaded cfg backends a result s) as [_ Hu]. cbv zeta in Hu.
  rewrite Hu. rewrite case_result. cbv zeta.
  destruct (fst (flush_due _ _ _ _)); [|done].
  by rewrite (upload_never_fails _ backends s H).
Qed.

(** With sinks that do not fail, the batches stay within the configured
    size: every batch handed to [upload] has at least one row and at most
    [FlagBufferSize] rows (one row, if that is not positive), and so has the
    open batch after every iteration. *)
Theorem batches_are_bounded (cfg : config.Config) (backends : list Backend)
    (a : Aggregator) (inputs : list Input) (s : Sys) :
  never_fail backends ->
  Z.of_nat (length (rows a)) < Z.max 1 (config.FlagBufferSize cfg) ->
  let out := processResult_loop cfg backends a inputs s in
  Forall (fun items => 1 <= Z.of_nat (length items) <= Z.max 1 (config.FlagBufferSize cfg))
         (uploaded (new_events s (snd out))) /\
  forall a', fst out = Continue a' ->
    Z.of_nat (length (rows a')) < Z.max 1 (config.FlagBufferSize cfg).
Proof.
  intros Hnf. cbv zeta. revert a s.
  induction inputs as [|i inputs IH]; intros a s Hlen.
  - cbn. rewrite new_events_refl. split; [constructor | by intros a' [= <-]].
  - rewrite loop_cons_events, loop_cons. cbv zeta.
    set (s1 := snd (environment (before i) s)).
    destruct (selected i) as [|event|[result|]] eqn:Hi.
    + change (processResult_case cfg backends a SelDone s1) with (Return, s1).
      cbn [fst snd]. rewrite new_events_refl. split; [constructor | discriminate].
    + rewrite case_event. cbn [fst snd].
      destruct (upload_uploaded [ToBigQueryRow event] backends s1) as [_ Hu].
      destruct (IH a (snd (upload [ToBigQueryRow event] backends s1)) Hlen) as [IH1 IH2].
      split; [|exact IH2].
      rewrite uploaded_app, Hu. constructor; [cbn; lia | exact IH1].
    + pose proof (case_result_never_fail cfg backends a result s1 Hnf) as Hc.
      cbv zeta in Hc.
      assert (Hb : length (rows a ++ [fst (result_row a result s1)]) = S (length (rows a)))
        by (rewrite length_app; cbn; lia).
      destruct (fst (flush_due cfg _ (updateTime a) s1)) eqn:Hdue;
        destruct Hc as [Hr Hu]; rewrite Hr.
      * edestruct IH as [IH1 IH2]; [|split; [|exact IH2]].
        { cbn. lia. }
        rewrite uploaded_app, Hu. constructor; [rewrite Hb; lia | exact IH1].
      * rewrite flush_due_eq in Hdue. cbn [fst] in Hdue.
        apply orb_false_iff in Hdue as [Hdue _]. rewrite Z.geb_leb, Z.leb_gt, Hb in Hdue.
        edestruct IH as [IH1 IH2]; [|split; [|exact IH2]].
        { cbn [rows]. rewrite Hb. lia. }
        rewrite uploaded_app, Hu. exact IH1.
    + change (processResult_case cfg backends a (SelResult None) s1) with (Panic, s1).
      cbn [fst snd]. rewrite new_events_refl. split; [constructor | discriminate].
Qed.

(** With sinks that do not fail, every row is handed to [upload] exactly
    once or is still in the open batch: as long as the loop runs, the rows of
    the batches handed over, with those of the open batch, are the rows it
    started with and the rows that arrived, each as often as it arrived. *)
Theorem every_row_in_one_batch (cfg : config.Config) (backends : list Backend)
    (a : Aggregator) (inputs : list Input) (s : Sys) (a' : Aggregator) :
  never_fail backends ->
  fst (processResult_loop cfg backends a inputs s) = Continue a' ->
  concat (uploaded (new_events s (snd (processResult_loop cfg backends a inputs s))))
    ++ rows a'
  ≡ₚ rows a ++ map arrival_row (arrivals cfg backends a inputs s).
Proof.
  intros Hnf. revert a s.
  induction inputs as [|i inputs IH]; intros a s Hout.
  - cbn in Hout. injection Hout as <-. cbn. rewrite new_events_refl. cbn.
    by rewrite app_nil_r.
  - rewrite loop_cons_events. rewrite loop_cons in Hout. cbv zeta in *.
    cbn [arrivals]. cbv zeta.
    set (s1 := snd (environment (before i) s)) in *.
    destruct (selected i) as [|event|[result|]] eqn:Hi.
    + discriminate Hout.
    + rewrite case_event in *. cbn [fst snd] in *.
      destruct (upload_uploaded [ToBigQueryRow event] backends s1) as [_ Hu].
      pose proof (IH _ _ Hout) as IHa.
      rewrite uploaded_app, Hu, concat_app, map_app, <- app_assoc, IHa.
      change (concat [[ToBigQueryRow event]]) with ([ToBigQueryRow event] ++ []).
      change (map arrival_row [Pushed (ToBigQueryRow event)]) with [ToBigQueryRow event].
      rewrite app_nil_r. cbn [app]. by rewrite Permutation_middle.
    + pose proof (case_result_never_fail cfg backends a result s1 Hnf) as Hc.
      cbv zeta in Hc.
      set (row := fst (result_row a result s1)) in *.
      change (map arrival_row ([Sampled row] ++ ?x)) with (row :: map arrival_row x).
      destruct (fst (flush_due cfg _ (updateTime a) s1));
        destruct Hc as [Hr Hu]; rewrite Hr in *; cbv beta iota in *;
        pose proof (IH _ _ Hout) as IHa; cbn [rows] in IHa;
        rewrite uploaded_app, Hu, concat_app, <- app_assoc, IHa.
      * change (concat [rows a ++ [row]]) with ((rows a ++ [row]) ++ []).
        rewrite app_nil_r. cbn [app map arrival_row]. by rewrite <- app_assoc.
      * cbn [concat app map arrival_row]. by rewrite <- app_assoc.
    + discriminate Hout.
Qed.

Lemma upload_None_stored (items : list BigQueryRow) (backends : list Backend) (s : Sys) :
  fst (upload items backends s) = None ->
  new_events s (snd (upload items backends s)) =
    EvUpload items :: map (fun b => EvPut b items None) backends.
Proof.
  unfold upload, bind, emit. cbn. intros HN.
  destruct (upload_loop_calls items backends
              {| world := world s; trace := trace s ++ [EvUpload items] |})
    as (calls & Htr & _ & Hres).
  rewrite HN in Hres. subst calls. apply new_events_app. rewrite Htr. cbn.
  rewrite <- app_assoc. unfold put_events. by rewrite map_map.
Qed.

(** After the case of a result the batch is kept, or it has been handed to
    an [upload] that returned no error and an empty batch is open. *)
Lemma case_result_kept_or_stored (cfg : config.Config) (backends : list Backend)
    (a : Aggregator) (result : SystemdUnitStatus) (s : Sys) :
  let batch := rows a ++ [fst (result_row a result s)] in
  let r := processResult_case cfg backends a (SelResult (Some result)) s in
  fst r = Continue (mkAggregator batch (updateTime a) (hostname a)) \/
  (fst r = Continue (mkAggregator [] (clock (world (snd r))) (hostname a)) /\
   fst (upload batch backends s) = None /\
   snd r = snd (upload batch backends s)).
Proof.
  cbv zeta. rewrite case_result. cbv zeta.
  destruct (fst (flush_due _ _ _ _)); [|by left].
  destruct (fst (upload _ backends s)) eqn:Hup; [by left | by right].
Qed.

(** A row made of a result is not dropped before every sink has stored it:
    as long as the loop runs, a row that was in the open batch or has been
    appended since is still in the open batch, or is in a batch that every
    sink of the configuration was given and accepted. *)
Theorem sampled_rows_kept_until_stored (cfg : config.Config) (backends : list Backend)
    (a : Aggregator) (inputs : list Input) (s : Sys) (a' : Aggregator) (row : BigQueryRow) :
  fst (processResult_loop cfg backends a inputs s) = Continue a' ->
  In row (rows a) \/ In (Sampled row) (arrivals cfg backends a inputs s) ->
  In row (rows a') \/
  exists items,
    In row items /\
    Forall (fun b => In (EvPut b items None)
                        (new_events s (snd (processResult_loop cfg backends a inputs s))))
           backends.
Proof.
  revert a s. induction inputs as [|i inputs IH]; intros a s Hout Hrow.
  - cbn in Hout. injection Hout as <-. destruct Hrow as [H|[]]. by left.
  - rewrite loop_cons_events. rewrite loop_cons in Hout. cbv zeta in *.
    cbn [arrivals] in Hrow. cbv zeta in Hrow.
    set (s1 := snd (environment (before i) s)) in *.
    assert (Hlift : forall new1 a1 s2,
              fst (processResult_loop cfg backends a1 inputs s2) = Continue a' ->
              In row (rows a1) \/ In (Sampled row) (arrivals cfg backends a1 inputs s2) ->
              In row (rows a') \/
              exists items, In row items /\
                Forall (fun b => In (EvPut b items None)
                          (new1 ++ new_events s2 (snd (processResult_loop cfg backends a1 inputs s2))))
                       backends).
    { intros new1 a1 s2 H1 H2. destruct (IH a1 s2 H1 H2) as [H|(items & Hin & Hall)]; [by left|].
      right. exists items. split; [done|].
      eapply Forall_impl; [exact Hall|]. intros b Hb. apply in_or_app. by right. }
    destruct (selected i) as [|event|[result|]] eqn:Hi.
    + discriminate Hout.
    + rewrite case_event in *. cbn [fst snd] in *.
      apply Hlift; [exact Hout|].
      destruct Hrow as [H|[H|H]]; [by left | discriminate H | by right].
    + set (batch := rows a ++ [fst (result_row a result s1)]) in *.
      assert (Hb : In row batch \/
                   In (Sampled row)
                      match fst (processResult_case cfg backends a (SelResult (Some result)) s1) with
                      | Continue a1 =>
                          arrivals cfg backends a1 inputs
                            (snd (processResult_case cfg backends a (SelResult (Some result)) s1))
                      | _ => []
                      end).
      { destruct Hrow as [H|[H|H]].
        - left. apply in_or_app. by left.
        - left. injection H as <-. apply in_or_app. right. by left.
        - by right. }
      clear Hrow.
      destruct (case_result_kept_or_stored cfg backends a result s1) as [Hr|(Hr & Hup & Hs)];
        fold batch in Hr; [|fold batch in Hup, Hs]; rewrite Hr in *; cbv beta iota in *.
      * apply Hlift; [exact Hout | exact Hb].
      * destruct Hb as [Hb|Hb]; [|apply Hlift; [exact Hout | by right]].
        right. exists batch. split; [exact Hb|].
        rewrite Hs, (upload_None_stored batch backends s1 Hup).
        apply Forall_forall. intros b Hin. apply in_or_app. left. right.
        apply in_map_iff. exists b. split; [done | by apply list_elem_of_In].
    + discriminate Hout.
Qed.

(** The loop keeps the host's name it was started with, and makes every row
    of a result with it. *)
Lemma loop_hostname (cfg : config.Config) (backends : list Backend)
    (a : Aggregator) (inputs : list Input) (s : Sys) :
  (forall a', fst (processResult_loop cfg backends a inputs s) = Continue a' ->
     hostname a' = hostname a) /\
  (forall row, In (Sampled row) (arrivals cfg backends a inputs s) ->
     exists result t,
       row = ToBigQueryRow (backend.set_Hostname (ToBigQuerySchema result t) (hostname a))).
Proof.
  revert a s. induction inputs as [|i inputs IH]; intros a s.
  - split; [by intros a' [= <-] | by intros row []].
  - rewrite loop_cons. cbn [arrivals]. cbv zeta.
    set (s1 := snd (environment (before i) s)).
    destruct (selected i) as [|event|[result|]] eqn:Hi.
    + split; [discriminate | by intros row []].
    + rewrite case_event. cbn [fst snd].
      destruct (IH a (snd (upload [ToBigQueryRow event] backends s1))) as [IH1 IH2].
      split; [exact IH1|]. intros row [H|H]; [discriminate H | by apply IH2].
    + assert (Hr : exists a1,
                fst (processResult_case cfg backends a (SelResult (Some result)) s1) = Continue a1 /\
                hostname a1 = hostname a).
      { destruct (case_result_kept_or_stored cfg backends a result s1) as [Hr|(Hr & _)];
          rewrite Hr; eauto. }
      destruct Hr as (a1 & Hr & Hh). rewrite Hr.
      destruct (IH a1 (snd (processResult_case cfg backends a (SelResult (Some result)) s1)))
        as [IH1 IH2].
      rewrite Hh in IH1, IH2. split; [exact IH1|].
      intros row [H|H]; [|by apply IH2].
      injection H as <-. exists result, (clock (world s1)). reflexivity.
    + split; [discriminate | by intros row []].
Qed.

(** The host's name is resolved once, when [processResult] starts, with
    ["<undefined>"] in its place if [os.Hostname] fails then: it is the name
    in the locals as long as the loop runs, and every row made of a result
    carries it, whatever the host answers later. *)
Theorem hostname_is_resolved_once (cfg : config.Config) (backends : list Backend)
    (inputs : list Input) (s : Sys) :
  let h := match os_Hostname (world s) with Ok h => h | Err _ => "<undefined>"%string end in
  (forall a', fst (processResult cfg backends inputs s) = Continue a' -> hostname a' = h) /\
  (forall row,
     In (Sampled row)
        (arrivals cfg backends (fst (processResult_start s)) inputs (snd (processResult_start s))) ->
     exists result t,
       row = ToBigQueryRow (backend.set_Hostname (ToBigQuerySchema result t) h)).
Proof.
  cbv zeta.
  pose proof (loop_hostname cfg backends (fst (processResult_start s)) inputs
                (snd (processResult_start s))) as [H1 H2].
  split; [|exact H2].
  intros a' Ha'. apply H1. unfold processResult, bind in Ha'.
  by destruct (processResult_start s).
Qed.

End AggregatorMore.

(** ** More on the conversion of a sample *)

Lemma to_int_not_nil (z : Z) :
  Z.to_int z <> Decimal.Pos Decimal.Nil /\ Z.to_int z <> Decimal.Neg Decimal.Nil.
Proof.
  split; intros H; pose proof (DecimalZ.of_to z) as Hz; rewrite H in Hz;
    cbn in Hz; subst z; vm_compute in H; discriminate H.
Qed.

(** [strconv.Itoa] gives different strings for different integers. *)
Lemma Itoa_inj (z1 z2 : Z) : Itoa z1 = Itoa z2 -> z1 = z2.
Proof.
  unfold Itoa. intros H. apply (f_equal NilZero.int_of_string) in H.
  destruct (to_int_not_nil z1), (to_int_not_nil z2).
  rewrite !NilZero.isi in H by done.
  injection H as H. by apply DecimalZ.to_int_inj.
Qed.

(** What a row says of its sample: two samples are converted to the same row
    if and only if they are converted at the same time and have the same name,
    the same pid, the same user value and the same total value.  The system
    value of the sample plays no part. *)
Theorem ToBigQuerySchema_determines (s1 s2 : watch.SystemdUnitStatus) (t1 t2 : Time) :
  watch.ToBigQuerySchema s1 t1 = watch.ToBigQuerySchema s2 t2 <->
  t1 = t2 /\
  watch.Name s1 = watch.Name s2 /\
  watch.Pid s1 = watch.Pid s2 /\
  proc.User (watch.CPUUsage s1) = proc.User (watch.CPUUsage s2) /\
  proc.Total (watch.CPUUsage s1) = proc.Total (watch.CPUUsage s2).
Proof.
  unfold watch.ToBigQuerySchema. split.
  - intros H. repeat split.
    + exact (f_equal backend.Timestamp H).
    + exact (f_equal backend.Name H).
    + apply Itoa_inj. exact (f_equal backend.Instance H).
    + exact (f_equal backend.UserCPU_Usage H).
    + exact (f_equal backend.TotalCPU_Usage H).
  - intros (-> & -> & -> & -> & ->). reflexivity.
Qed.

(** ** More on the goroutines of [StartWatcher] *)

Section WatcherMore.
Context {RT : watch.Runtime}.
Variables (cfg : config.Config) (backends : list watch.Backend).
Import watch.

Lemma run_snoc (s : State) (ls : list Label) (l : Label) (s'' : State) :
  run cfg backends s (ls ++ [l]) s'' ->
  exists s', run cfg backends s ls s' /\ step cfg backends s' l s''.
Proof.
  revert s. induction ls as [|l0 ls IH]; intros s H.
  - inversion H as [|? ? s1 ? ? Hstep Hrun]; subst.
    inversion Hrun; subst. exists s. split; [constructor | done].
  - inversion H as [|? ? s1 ? ? Hstep Hrun]; subst.
    destruct (IH s1 Hrun) as (s' & Hrun' & Hstep').
    exists s'. split; [econstructor; eauto | done].
Qed.

Lemma agrees_set_task (ts : list Task) (g : Tick) (i : nat) (t' : Task)
    (o : systemd.SystemdUnitProps * option proc.CPUPidUsage) :
  Forall2 task_agrees ts g -> g !! i = Some o -> task_agrees t' o ->
  Forall2 task_agrees (<[i := t']> ts) g.
Proof.
  intros H Hg Ht'. rewrite <- (list_insert_id g i o Hg). by apply Forall2_insert.
Qed.

Lemma agrees_loads (units : list systemd.SystemdUnitProps) :
  Forall2 task_agrees (map TLoad units) (map (fun unit => (unit, None)) units).
Proof. induction units; constructor; done. Qed.

(** Every move keeps the tasks in agreement with the tick observed. *)
Lemma agrees_step (s : State) (l : Label) (s' : State) (g : Tick) :
  step cfg backends s l s' ->
  Forall2 task_agrees (tasks s) g ->
  Forall2 task_agrees (tasks s') (observe g l).
Proof.
  intros Hstep Hg. unfold Tick in *.
  destruct Hstep; cbn -[processResult_case after_case]; unfold Tick in *; try done;
    try match goal with
        | |- Forall2 _ (tasks (after_case ?s ?r)) _ =>
            destruct (after_case_fields s r) as (_ & _ & _ & -> & _)
        end; try done.
  - destruct r; [discriminate | done].
  - apply processUnits_start_Ok in H1 as (units & -> & ->). apply agrees_loads.
  - destruct (Forall2_lookup_l _ _ _ _ _ Hg H0) as (o & Ho & Hag). cbn in Hag. subst o.
    destruct r as [usage|e]; cbn [handleUnit_loaded].
    + rewrite Ho. by apply Forall2_insert.
    + by eapply agrees_set_task.
  - destruct (Forall2_lookup_l _ _ _ _ _ Hg H0) as (o & Ho & Hag). cbn in Hag. subst o.
    eapply agrees_set_task; [done | done |].
    unfold handleUnit_select. destruct (cancelled s); [done|]. cbn. eauto.
  - destruct (Forall2_lookup_l _ _ _ _ _ Hg H1) as (o & Ho & Hag).
    cbn. by eapply agrees_set_task.
Qed.

Lemma agrees_run (s : State) (ls : list Label) (s' : State) (g : Tick) :
  run cfg backends s ls s' ->
  Forall2 task_agrees (tasks s) g ->
  Forall2 task_agrees (tasks s') (fold_left observe ls g).
Proof.
  intros Hrun. revert g. induction Hrun as [s|s l s1 ls s2 Hstep Hrun IH]; intros g Hg.
  - done.
  - cbn. apply IH. by eapply agrees_step.
Qed.

(** What the aggregator receives from a task is the status of the unit that
    the enumerator returned at the task's index in the tick in progress, with
    the usage that the sampler returned for it in this tick. *)
Theorem received_status_origin (w : World) (ls : list Label) (i : nat)
    (status : SystemdUnitStatus) (s : State) :
  run cfg backends (init w) (ls ++ [LRecv i status]) s ->
  exists unit usage,
    observed ls !! i = Some (unit, Some usage) /\
    status = status_of unit usage.
Proof.
  intros Hrun. apply run_snoc in Hrun as (s' & Hrun & Hstep).
  assert (Hg : Forall2 task_agrees (tasks s') (observed ls))
    by (eapply agrees_run; [exact Hrun | constructor]).
  inversion Hstep as [| | | | | | | | | | | | | | |s0 a i0 st Hcr Ha Hi Hc|]; subst.
  destruct (Forall2_lookup_l _ _ _ _ _ Hg Hi) as ([unit o] & Ho & usage & Hu & Hst).
  cbn in Hu, Hst. subst o. eauto.
Qed.

(** How an iteration of the aggregator's loop ends, by the case taken. *)
Lemma case_outcome (a : Aggregator) (sel : Selected) (y : Sys) :
  match sel with
  | SelDone => fst (processResult_case cfg backends a sel y) = Return
  | SelResult None => fst (processResult_case cfg backends a sel y) = Panic
  | _ => exists a', fst (processResult_case cfg backends a sel y) = Continue a'
  end.
Proof.
  destruct sel as [|event|[status|]]; try reflexivity.
  - rewrite case_event. eauto.
  - apply case_result_continues.
Qed.

(** As long as the context is not cancelled, no goroutine has panicked and
    [processResult] has not returned. *)
Lemma running_step (s : State) (l : Label) (s' : State) :
  step cfg backends s l s' -> invariant s ->
  (cancelled s = false -> crash s = None /\ agg s <> AReturned) ->
  cancelled s' = false -> crash s' = None /\ agg s' <> AReturned.
Proof.
  intros Hstep (_ & I2 & _) Hq.
  destruct Hstep; cbn -[processResult_case after_case]; try (intros Hc; by apply Hq);
    try (intros; congruence).
  - intros Hc. rewrite I2 in Hc; done.
  - intros Hc. split; [by apply Hq | discriminate].
  - destruct (after_case_fields s (processResult_case cfg backends a SelDone (sys s)))
      as (-> & _). congruence.
  - intros Hc. pose proof (case_outcome a (SelEvent event) (sys s)) as [a' Ha'].
    unfold after_case in *. rewrite Ha' in *. cbn in *. split; [by apply Hq | discriminate].
  - intros Hc. pose proof (case_outcome a (SelResult (Some status)) (sys s)) as [a' Ha'].
    unfold after_case in *. rewrite Ha' in *. cbn in *. split; [by apply Hq | discriminate].
  - destruct (after_case_fields s (processResult_case cfg backends a (SelResult None) (sys s)))
      as (-> & _). intros Hc. rewrite I2 in Hc; done.
Qed.

(** The watcher only fails after a cancellation: in every state of
    [StartWatcher] in which the context is not cancelled, the result channel
    is open, no goroutine has panicked, and [processResult] has not
    returned. *)
Theorem nothing_fails_before_cancellation (s : State) :
  reachable cfg backends s ->
  cancelled s = false ->
  closed s = false /\ crash s = None /\ agg s <> AReturned.
Proof.
  intros (w & ls & Hrun) Hc.
  assert (Hinv : invariant s) by (eapply invariant_run; [exact Hrun | apply invariant_init]).
  split.
  - destruct Hinv as (_ & I2 & _). destruct (closed s); [|done].
    rewrite I2 in Hc; done.
  - revert Hc.
    assert (H0 : cancelled (init w) = false ->
                 crash (init w) = None /\ agg (init w) <> AReturned) by done.
    pose proof (invariant_init w) as Hi0.
    clear Hinv. induction Hrun as [s|s l s1 ls s2 Hstep Hrun IH]; [exact H0|].
    apply IH.
    + by eapply running_step.
    + by eapply invariant_step.
Qed.

(** Once [processResult] has returned nothing is uploaded any more: whatever
    moves follow, none is the aggregator's, no task's send is received, and
    the calls made to [upload] and to the sinks stay as they were. *)
Theorem nothing_uploaded_after_return (s : State) (ls : list Label) (s' : State) :
  agg s = AReturned ->
  run cfg backends s ls s' ->
  agg s' = AReturned /\
  trace (sys s') = trace (sys s) /\
  Forall (fun l => thread_of l <> ThAggregator /\ forall i status, l <> LRecv i status) ls.
Proof.
  intros Ha Hrun. induction Hrun as [s|s l s1 ls s2 Hstep Hrun IH]; [by repeat split|].
  assert (H1 : agg s1 = AReturned /\ trace (sys s1) = trace (sys s) /\
               thread_of l <> ThAggregator /\ forall i status, l <> LRecv i status).
  { destruct Hstep; cbn -[processResult_case after_case]; try congruence;
      repeat split; try done; try discriminate. }
  destruct H1 as (Ha1 & Ht1 & Hth & Hl).
  destruct (IH Ha1) as (? & Ht & ?). repeat split; [done | congruence | by constructor].
Qed.

(** A cancelled context stays cancelled. *)
Lemma cancelled_step (s : State) (l : Label) (s' : State) :
  step cfg backends s l s' -> cancelled s' = false -> cancelled s = false.
Proof.
  intros Hstep.
  destruct Hstep; cbn -[processResult_case after_case]; try done;
    match goal with
    | |- cancelled (after_case ?s ?r) = false -> _ =>
        destruct (after_case_fields s r) as (-> & _); done
    end.
Qed.

(** While the context is not cancelled: a task of the tick in progress that
    has returned after a successful sampling has had its status received,
    in this tick. *)
Lemma delivered_step (s : State) (l : Label) (s' : State) (g : Tick) (tk : list Label) :
  step cfg backends s l s' -> invariant s ->
  Forall2 task_agrees (tasks s) g ->
  cancelled s' = false ->
  (forall i unit usage,
     tasks s !! i = Some TDone -> g !! i = Some (unit, Some usage) ->
     In (LRecv i (status_of unit usage)) tk) ->
  forall i unit usage,
    tasks s' !! i = Some TDone -> observe g l !! i = Some (unit, Some usage) ->
    In (LRecv i (status_of unit usage)) (note tk l).
Proof.
  intros Hstep Hinv Hg Hc' Hd. pose proof (cancelled_step s l s' Hstep Hc') as Hc.
  unfold Tick in *.
  assert (Hkeep : forall l0 : Label, forall i unit usage,
            tasks s !! i = Some TDone -> g !! i = Some (unit, Some usage) ->
            In (LRecv i (status_of unit usage)) (tk ++ [l0])).
  { intros l0 i unit usage Ht Hgi. apply in_or_app. left. by eapply Hd. }
  destruct Hstep; cbn -[processResult_case after_case] in *; unfold Tick in *;
    try (exact (Hkeep _));
    try match goal with
        | |- forall i unit usage, tasks (after_case ?s ?r) !! i = _ -> _ =>
            destruct (after_case_fields s r) as (_ & _ & _ & -> & _);
            try (exact (Hkeep _))
        end.
  - (* the enumerator fails: no task *)
    intros i unit usage Ht. destruct Hinv as (_ & _ & I3 & _).
    rewrite I3 in Ht by congruence. discriminate Ht.
  - (* the enumerator returns units: every task starts *)
    apply processUnits_start_Ok in H1 as (units & -> & ->).
    intros i unit usage Ht. rewrite list_lookup_fmap in Ht.
    destruct (units !! i); discriminate Ht.
  - (* wg.Wait() returns: no task *)
    intros i unit usage Ht. discriminate Ht.
  - (* the sampler answers task i0 *)
    destruct (Forall2_lookup_l _ _ _ _ _ Hg H0) as (o & Ho & Hag). cbn in Hag. subst o.
    intros j unit' usage' Ht Hgj. apply in_or_app. left.
    destruct (decide (j = i)) as [->|Hne].
    + rewrite list_lookup_insert_eq in Ht by (by eapply lookup_lt_Some).
      destruct r as [usage|e]; [discriminate Ht|]. rewrite Ho in Hgj. discriminate Hgj.
    + rewrite list_lookup_insert_ne in Ht by done.
      eapply Hd; [exact Ht|].
      destruct r as [usage|e]; [|exact Hgj].
      rewrite Ho in Hgj. by rewrite list_lookup_insert_ne in Hgj.
  - (* task i0 takes the default case of its select *)
    intros j unit' usage' Ht Hgj. apply in_or_app. left.
    destruct (decide (j = i)) as [->|Hne].
    + rewrite list_lookup_insert_eq in Ht by (by eapply lookup_lt_Some).
      unfold handleUnit_select in Ht. rewrite Hc in Ht. discriminate Ht.
    + rewrite list_lookup_insert_ne in Ht by done. by eapply Hd.
  - (* the aggregator receives from task i0 *)
    cbn. intros j unit' usage' Ht Hgj. apply in_or_app.
    destruct (decide (j = i)) as [->|Hne].
    + right. left.
      destruct (Forall2_lookup_l _ _ _ _ _ Hg H1) as (o & Ho & usage0 & Hu & Hst).
      rewrite Hgj in Ho. injection Ho as <-. cbn in Hu, Hst.
      injection Hu as <-. by rewrite Hst.
    + left. rewrite list_lookup_insert_ne in Ht by done. by eapply Hd.
Qed.

Lemma delivered_run (s : State) (ls : list Label) (s' : State) (g : Tick) (tk : list Label) :
  run cfg backends s ls s' -> invariant s ->
  Forall2 task_agrees (tasks s) g ->
  cancelled s' = false ->
  (forall i unit usage,
     tasks s !! i = Some TDone -> g !! i = Some (unit, Some usage) ->
     In (LRecv i (status_of unit usage)) tk) ->
  forall i unit usage,
    tasks s' !! i = Some TDone -> fold_left observe ls g !! i = Some (unit, Some usage) ->
    In (LRecv i (status_of unit usage)) (fold_left note ls tk).
Proof.
  intros Hrun. revert g tk.
  induction Hrun as [s|s l s1 ls s2 Hstep Hrun IH]; intros g tk Hinv Hg Hc' Hd; [exact Hd|].
  cbn. apply IH.
  - by eapply invariant_step.
  - by eapply agrees_step.
  - exact Hc'.
  - eapply delivered_step; try done.
    clear -Hrun Hc'. induction Hrun; [done|]. eapply cancelled_step; eauto.
Qed.

(** [processUnits] waits for its tasks, and no sample is lost at the end of a
    tick: when [wg.Wait()] returns with the context not cancelled, the
    aggregator has received, since the enumerator was called, the status of
    every unit of the tick for which the sampler returned a usage. *)
Theorem tick_delivers_every_sample (w : World) (ls : list Label) (s : State) :
  run cfg backends (init w) (ls ++ [LJoined]) s ->
  cancelled s = false ->
  forall i unit usage,
    observed ls !! i = Some (unit, Some usage) ->
    In (LRecv i (status_of unit usage)) (since_enumerate ls).
Proof.
  intros Hrun Hc i unit usage Hi.
  apply run_snoc in Hrun as (s' & Hrun & Hstep).
  assert (Hg : Forall2 task_agrees (tasks s') (observed ls))
    by (eapply agrees_run; [exact Hrun | constructor]).
  inversion Hstep as [| | | | |s0 Hcr Hd Hall| | | | | | | | | | |]; subst.
  cbn in Hc.
  destruct (Forall2_lookup_r _ _ _ _ _ Hg Hi) as (t & Ht & _).
  assert (t = TDone) as -> by (rewrite Forall_lookup in Hall; by eapply Hall).
  by eapply (delivered_run (init w) ls s' [] []).
Qed.

End WatcherMore.

(** ** More on the api-server's configuration *)

Section NewConfigMore.
Import apiserver.

(** Of the environment, [NewConfig] reads the three variables
    [API_SERVER_PROJECT_ID], [API_SERVER_DATASET] and
    [API_SERVER_FLUSH_INTERVAL] and no other: in two environments that agree on
    them it returns the same, for every argument list.  The event buffer size,
    the table name and the verbosity are not taken from the environment. *)
Theorem NewConfig_reads_three_variables (L1 L2 : Library) (args : list string) :
  @Parse L1 = @Parse L2 ->
  @ParseDuration L1 = @ParseDuration L2 ->
  (forall key,
     In key ["API_SERVER_PROJECT_ID"; "API_SERVER_DATASET"; "API_SERVER_FLUSH_INTERVAL"]%string ->
     @Getenv L1 key = @Getenv L2 key) ->
  @NewConfig L1 args = @NewConfig L2 args.
Proof.
  intros HP HD HG. unfold NewConfig, environment, from_env. cbn [String.append].
  rewrite HP, HD, !HG by (cbn; tauto). reflexivity.
Qed.

Lemma NewConfig_reads_three_variables_witness :
  @NewConfig (golib.library [("API_SERVER_DATASET", "staging"); ("API_SERVER_EVENT_BUFFER", "7")]%string)
    ["api-server"]%string =
  @NewConfig (golib.library [("API_SERVER_DATASET", "staging")]%string) ["api-server"]%string.
Proof.
  apply NewConfig_reads_three_variables; [reflexivity | reflexivity |].
  intros key [<-|[<-|[<-|[]]]]; reflexivity.
Defined.

End NewConfigMore.

(** ** More examples *)

Section MoreExamples.
Import watch example.
#[local] Existing Instance runtime.

Lemma storing_never_fails : never_fail [storing].
Proof. constructor; [intros items w; reflexivity | constructor]. Qed.

Lemma upload_stores_everywhere_witness :
  never_fail [storing] /\
  fst (upload [row1 1] [storing] (at_clock 1)) = None /\
  new_events (at_clock 1) (snd (upload [row1 1] [storing] (at_clock 1))) =
    [EvUpload [row1 1]; EvPut storing [row1 1] None].
Proof.
  split; [exact storing_never_fails|].
  exact (@upload_stores_everywhere runtime [row1 1] [storing] (at_clock 1) storing_never_fails).
Defined.

Lemma shutdown_drops_the_open_batch_witness :
  let pre := [after 1 (SelResult (Some sample1))] in
  let done := after 1 SelDone in
  let post := [after 1 (SelResult (Some sample2))] in
  processResult_loop (cfg 10) [storing] aggregator0 pre start =
    (Continue (@mkAggregator runtime [row1 1] 0 "host"), at_clock 1) /\
  processResult_loop (cfg 10) [storing] aggregator0 (pre ++ done :: post) start =
    (Return, at_clock 2).
Proof.
  cbv zeta. split; [reflexivity|].
  exact (proj1 (@shutdown_drops_the_open_batch runtime (cfg 10) [storing] aggregator0
                  [after 1 (SelResult (Some sample1))] (after 1 SelDone)
                  [after 1 (SelResult (Some sample2))] start
                  (@mkAggregator runtime [row1 1] 0 "host") (at_clock 1) eq_refl eq_refl)).
Defined.

Lemma batches_are_bounded_witness :
  let inputs := [after 1 (SelResult (Some sample1)); after 1 (SelResult (Some sample2));
                 after 1 (SelResult (Some sample1))] in
  never_fail [storing] /\
  Z.of_nat (length (rows aggregator0)) < Z.max 1 (config.FlagBufferSize (cfg 2)) /\
  Forall (fun items => 1 <= Z.of_nat (length items) <= Z.max 1 (config.FlagBufferSize (cfg 2)))
         (uploaded (new_events start
                      (snd (processResult_loop (cfg 2) [storing] aggregator0 inputs start)))).
Proof.
  cbv zeta. split; [exact storing_never_fails|]. split; [reflexivity|].
  apply (@batches_are_bounded runtime (cfg 2) [storing] aggregator0);
    [exact storing_never_fails | reflexivity].
Defined.

Lemma every_row_in_one_batch_witness :
  let inputs := [after 1 (SelResult (Some sample1)); after 1 (SelEvent event1);
                 after 1 (SelResult (Some sample2)); after 1 (SelResult (Some sample1))] in
  let a' := @mkAggregator runtime [row1 6] 5 "host" in
  never_fail [storing] /\
  fst (processResult_loop (cfg 2) [storing] aggregator0 inputs start) = Continue a' /\
  concat (uploaded (new_events start
                      (snd (processResult_loop (cfg 2) [storing] aggregator0 inputs start))))
    ++ rows a'
  ≡ₚ rows aggregator0 ++ map arrival_row (arrivals (cfg 2) [storing] aggregator0 inputs start).
Proof.
  cbv zeta. split; [exact storing_never_fails|]. split; [reflexivity|].
  apply (@every_row_in_one_batch runtime (cfg 2) [storing] aggregator0);
    [exact storing_never_fails | reflexivity].
Defined.

Lemma sampled_rows_kept_until_stored_witness :
  let inputs := [after 1 (SelResult (Some sample1)); after 1 (SelResult (Some sample2))] in
  fst (processResult_loop (cfg 2) [storing] aggregator0 inputs start) =
    Continue (@mkAggregator runtime [] 3 "host") /\
  In (Sampled (row1 1)) (arrivals (cfg 2) [storing] aggregator0 inputs start) /\
  (In (row1 1) (rows (@mkAggregator runtime [] 3 "host")) \/
   exists items,
     In (row1 1) items /\
     Forall (fun b => In (EvPut b items None)
                         (new_events start
                            (snd (processResult_loop (cfg 2) [storing] aggregator0 inputs start))))
            [storing]).
Proof.
  cbv zeta. split; [reflexivity|]. split; [left; reflexivity|].
  apply (@sampled_rows_kept_until_stored runtime (cfg 2) [storing] aggregator0);
    [reflexivity | right; left; reflexivity].
Defined.

Lemma received_run :
  run (cfg 10) [storing] (init 0)
    ([LAggStart; LEnumerate (Ok [unit1]); LLoad 0 42 1000000000 (Ok usage); LTaskSelect 0]
       ++ [LRecv 0 sample1])
    (@mkState runtime start false false None DWait [TDone]
       (ALoop (@mkAggregator runtime [row1 0] 0 "host"))).
Proof.
  eapply run_cons; [eapply step_agg_start; reflexivity|].
  eapply run_cons; [eapply step_enumerate_ok; reflexivity|].
  eapply run_cons;
    [eapply (step_load (cfg 10) [storing] _ 0%nat unit1 (Ok usage)); reflexivity|].
  eapply run_cons; [eapply (step_task_select _ _ _ 0%nat unit1 usage); reflexivity|].
  eapply run_cons; [eapply (step_recv _ _ _ _ 0%nat sample1); reflexivity|].
  apply run_nil.
Qed.

Lemma received_status_origin_witness :
  exists unit sampled,
    observed [LAggStart; LEnumerate (Ok [unit1]); LLoad 0 42 1000000000 (Ok usage); LTaskSelect 0]
      !! 0%nat = Some (unit, Some sampled) /\
    sample1 = status_of unit sampled.
Proof.
  exact (@received_status_origin runtime (cfg 10) [storing] 0 _ 0%nat sample1 _ received_run).
Defined.

Lemma tick_delivers_every_sample_witness :
  let ls := [LAggStart; LEnumerate (Ok [unit1]); LLoad 0 42 1000000000 (Ok usage);
             LTaskSelect 0] ++ [LRecv 0 sample1] in
  observed ls !! 0%nat = Some (unit1, Some usage) /\
  In (LRecv 0 (status_of unit1 usage)) (since_enumerate ls).
Proof.
  cbv zeta. split; [reflexivity|].
  refine (@tick_delivers_every_sample runtime (cfg 10) [storing] 0
            ([LAggStart; LEnumerate (Ok [unit1]); LLoad 0 42 1000000000 (Ok usage);
              LTaskSelect 0] ++ [LRecv 0 sample1])
            (@mkState runtime start false false None (DSelect false) []
               (ALoop (@mkAggregator runtime [row1 0] 0 "host")))
            _ eq_refl 0%nat unit1 usage eq_refl).
  eapply run_app; [exact received_run|].
  eapply run_cons; [eapply step_joined; [reflexivity | reflexivity | repeat constructor]|].
  apply run_nil.
Defined.

Lemma nothing_fails_before_cancellation_witness :
  reachable (cfg 10) [storing] sampling_state /\
  cancelled sampling_state = false /\
  closed sampling_state = false /\ crash sampling_state = None /\
  agg sampling_state <> AReturned.
Proof.
  split; [exact sampling_state_reachable|]. split; [reflexivity|].
  exact (@nothing_fails_before_cancellation runtime (cfg 10) [storing] sampling_state
           sampling_state_reachable eq_refl).
Defined.

Lemma nothing_uploaded_after_return_witness :
  let s := @mkState runtime start true false None DTop [] AReturned in
  let s' := @mkState runtime (at_clock 5) true false None DWait [TLoad unit1] AReturned in
  agg s = AReturned /\
  run (cfg 10) [storing] s [@LEnv runtime (fun w : Z => w + 5); LEnumerate (Ok [unit1])] s' /\
  trace (sys s') = trace (sys s).
Proof.
  cbv zeta.
  assert (Hrun : run (cfg 10) [storing]
                   (@mkState runtime start true false None DTop [] AReturned)
                   [@LEnv runtime (fun w : Z => w + 5); LEnumerate (Ok [unit1])]
                   (@mkState runtime (at_clock 5) true false None DWait [TLoad unit1] AReturned)).
  { eapply run_cons; [eapply (@step_env runtime _ _ _ (fun w : Z => w + 5)); reflexivity|].
    eapply run_cons; [eapply step_enumerate_ok; reflexivity|].
    apply run_nil. }
  split; [reflexivity|]. split; [exact Hrun|].
  exact (proj1 (proj2 (@nothing_uploaded_after_return runtime (cfg 10) [storing]
                         (@mkState runtime start true false None DTop [] AReturned) _ _
                         eq_refl Hrun))).
Defined.

End MoreExamples.
